(** * Event construction from analyst recommendations

    A shallow embedding of [src/event_study/mk_events.py]: the function
    [mk_event_df] and its local helper [_mk_et].

    The data frame read from the recommendations CSV is the input of the
    model: a list of rows, each with its [Date] index (a timestamp) and the
    two text columns the function keeps.  Every later stage of the function
    is a definition below, in the order of the source:

    - Step 2: [firm] is upper-cased, [event_date] is [strftime '%Y-%m-%d']
      (an [AttributeError] on the frame without rows, whose index
      [read_csv] leaves untyped);
    - Step 3: [sort_index], [groupby] on [event_date, firm], [last];
    - Step 4.1: [str.contains 'up|down'];
    - Step 4.2: [apply _mk_et], which raises on any other text;
    - Step 4.3: [reset_index] and [index + 1];
    - Step 4.4: the projection on [firm, event_date, event_type].

    Text is ASCII text (one [ascii] per character), on which the byte order
    of [String.compare] is Python's order on [str] and [upper] is
    [str.upper].  Both text columns hold text in every row (no missing
    value).  Rows with equal timestamps keep their input order in
    [sort_index]; pandas leaves that order open.  On frames whose
    timestamps are pairwise distinct every sort gives the frame
    [sort_index] gives ([sort_index_is_the_sort]); the statements below
    either hold for every order of equal timestamps or assume distinct
    timestamps. *)

From Stdlib Require Import List String Ascii Bool NArith ZArith Lia.
From Stdlib Require Import Sorted Permutation OrderedTypeEx DecimalString.
Import ListNotations.

Local Open Scope string_scope.

(** ** Comparisons *)

(** A three-way comparison that is a strict total order. *)
Class TotalCmp {A : Type} (cmp : A -> A -> comparison) : Prop := {
  cmp_eq : forall a b, cmp a b = Eq <-> a = b;
  cmp_antisym : forall a b, cmp b a = CompOpp (cmp a b);
  cmp_trans : forall a b c, cmp a b = Lt -> cmp b c = Lt -> cmp a c = Lt
}.

(** Python's comparison of tuples: the first component decides unless it is
    equal. *)
Definition pair_compare {A B : Type}
    (cA : A -> A -> comparison) (cB : B -> B -> comparison)
    (x y : A * B) : comparison :=
  match cA (fst x) (fst y) with
  | Eq => cB (snd x) (snd y)
  | c => c
  end.

(** ** Timestamps and dates *)

(** An element of the [DatetimeIndex] that [read_csv] parses from the
    [Date] column. *)
Record Timestamp : Type := mkTimestamp {
  year : N;
  month : N;
  day : N;
  hour : N;
  minute : N;
  second : N
}.

Definition ts_fields (t : Timestamp) : N * (N * (N * (N * (N * N)))) :=
  (year t, (month t, (day t, (hour t, (minute t, second t))))).

(** Chronological order. *)
Definition ts_compare (a b : Timestamp) : comparison :=
  pair_compare N.compare
    (pair_compare N.compare
      (pair_compare N.compare
        (pair_compare N.compare
          (pair_compare N.compare N.compare))))
    (ts_fields a) (ts_fields b).

Definition ts_leb (a b : Timestamp) : bool :=
  match ts_compare a b with Gt => false | _ => true end.

Definition ts_ltb (a b : Timestamp) : bool :=
  match ts_compare a b with Lt => true | _ => false end.

Fixpoint zeros (n : nat) : string :=
  match n with
  | O => ""
  | S n' => String "0" (zeros n')
  end.

(** The decimal numeral of [n], filled with zeros on the left up to [w]
    characters: what [%Y], [%m] and [%d] print with [w] 4, 2 and 2. *)
Definition zero_pad (w : nat) (n : N) : string :=
  let s := NilZero.string_of_uint (N.to_uint n) in
  zeros (w - String.length s) ++ s.

(** [index.strftime('%Y-%m-%d')] on one timestamp. *)
Definition strftime_Ymd (t : Timestamp) : string :=
  zero_pad 4 (year t) ++ "-" ++ zero_pad 2 (month t) ++ "-" ++ zero_pad 2 (day t).

(** ** Text *)

Definition is_lower (c : ascii) : bool :=
  let n := N_of_ascii c in (97 <=? n)%N && (n <=? 122)%N.

Definition upper_char (c : ascii) : ascii :=
  if is_lower c then ascii_of_N (N_of_ascii c - 32) else c.

(** [str.upper]. *)
Fixpoint upper (s : string) : string :=
  match s with
  | EmptyString => EmptyString
  | String c s' => String (upper_char c) (upper s')
  end.

(** [re.search] of an alternation of literals: the first position of [s]
    at which one of the alternatives starts. *)
Fixpoint re_search (alts : list string) (s : string) : bool :=
  existsb (fun p => String.prefix p s) alts ||
  match s with
  | EmptyString => false
  | String _ s' => re_search alts s'
  end.

(** [str.contains('up|down')] on one value. *)
Definition str_contains_up_down (s : string) : bool :=
  re_search ["up"; "down"] s.

(** The words of the specification: [p] occurs somewhere in [s]. *)
Definition has_substring (p s : string) : Prop :=
  exists a b, s = a ++ p ++ b.

(** ** Exceptions *)

(** The two exceptions the function can end with: the [Exception] that
    [_mk_et] raises, with its message, and the [AttributeError] of a frame
    whose index has no [strftime]. *)
Inductive exn : Type :=
| Exception (msg : string)
| AttributeError.

Inductive result (A : Type) : Type :=
| Ok (a : A)
| Raise (e : exn).

Arguments Ok {A} a.
Arguments Raise {A} e.

Definition bind {A B : Type} (m : result A) (k : A -> result B) : result B :=
  match m with
  | Ok a => k a
  | Raise e => Raise e
  end.

Notation "x <- m ;; k" := (bind m (fun x => k))
  (at level 61, m at next level, right associativity).

(** ** The frames of [mk_event_df] *)

(** A row of the CSV as read in step 1, with its [Date] index. *)
Record recommendation : Type := mkRec {
  Date : Timestamp;
  Firm : string;
  Action : string
}.

(** A row after step 2. *)
Record row : Type := mkRow {
  index : Timestamp;
  firm : string;
  action : string;
  event_date : string
}.

(** A row of [groups.last().reset_index()]: the two keys and the column
    that is left. *)
Record grouped : Type := mkGrouped {
  g_event_date : string;
  g_firm : string;
  g_action : string
}.

(** A row of the returned frame, with its [event_id] index. *)
Record event : Type := mkEvent {
  event_id : Z;
  e_firm : string;
  e_event_date : string;
  event_type : string
}.

(** *** Step 2 *)

Definition step2 (df : list recommendation) : list row :=
  map (fun r => mkRow (Date r) (upper (Firm r)) (Action r) (strftime_Ymd (Date r))) df.

(** *** Step 3 *)

Fixpoint insert_row (r : row) (df : list row) : list row :=
  match df with
  | [] => [r]
  | x :: df' =>
      if ts_leb (index r) (index x) then r :: df else x :: insert_row r df'
  end.

(** [df.sort_index()]: ascending timestamps. *)
Fixpoint sort_index (df : list row) : list row :=
  match df with
  | [] => []
  | r :: df' => insert_row r (sort_index df')
  end.

(** The group key [(event_date, firm)]. *)
Definition key : Type := (string * string)%type.

Definition key_compare : key -> key -> comparison :=
  pair_compare String.compare String.compare.

Definition key_eqb (a b : key) : bool :=
  match key_compare a b with Eq => true | _ => false end.

Definition key_ltb (a b : key) : bool :=
  match key_compare a b with Lt => true | _ => false end.

Definition row_key (r : row) : key := (event_date r, firm r).

Fixpoint insert_key (k : key) (ks : list key) : list key :=
  match ks with
  | [] => [k]
  | k' :: ks' =>
      match key_compare k k' with
      | Lt => k :: ks
      | Eq => ks
      | Gt => k' :: insert_key k ks'
      end
  end.

(** The distinct keys of the frame in ascending order ([sort=True]). *)
Definition group_keys (df : list row) : list key :=
  fold_right insert_key [] (map row_key df).

(** [df.groupby(['event_date', 'firm'])]: each key with its rows, in the
    order the rows have in [df]. *)
Definition groupby (df : list row) : list (key * list row) :=
  map (fun k => (k, filter (fun r => key_eqb (row_key r) k) df)) (group_keys df).

Fixpoint last_row (g : list row) : option row :=
  match g with
  | [] => None
  | [r] => Some r
  | _ :: g' => last_row g'
  end.

(** [groups.last().reset_index()]. *)
Definition groups_last (groups : list (key * list row)) : list grouped :=
  flat_map (fun kg =>
    match last_row (snd kg) with
    | Some r => [mkGrouped (fst (fst kg)) (snd (fst kg)) (action r)]
    | None => []
    end) groups.

Definition step3 (df : list row) : list grouped :=
  groups_last (groupby (sort_index df)).

(** *** Step 4 *)

(** 4.1: [df.loc[cond]]. *)
Definition step4_1 (df : list grouped) : list grouped :=
  filter (fun g => str_contains_up_down (g_action g)) df.

Definition unknown_value (value : string) : exn :=
  Exception ("Unknown value for column `action`: " ++ value).

Definition _mk_et (value : string) : result string :=
  if String.eqb value "down" then Ok "downgrade"
  else if String.eqb value "up" then Ok "upgrade"
  else Raise (unknown_value value).

(** [df['action'].apply(_mk_et)]: the values in row order, the first
    exception ends the call. *)
Fixpoint apply_mk_et (col : list string) : result (list string) :=
  match col with
  | [] => Ok []
  | value :: col' =>
      et <- _mk_et value ;;
      ets <- apply_mk_et col' ;;
      Ok (et :: ets)
  end.

(** 4.3: [reset_index] numbers the rows from 0. *)
Definition range_index (n : nat) : list Z :=
  map Z.of_nat (seq 0 n).

(** 4.3: [df.index + 1]. *)
Definition event_ids (n : nat) : list Z :=
  map (fun i => (i + 1)%Z) (range_index n).

(** 4.4: a row of [df[cols]], from its [event_id], the row of the frame
    and its [event_type]. *)
Definition mk_event_of (p : Z * (grouped * string)) : event :=
  mkEvent (fst p) (g_firm (fst (snd p))) (g_event_date (fst (snd p))) (snd (snd p)).

(** 4.2 to 4.4. *)
Definition step4_2 (df : list grouped) : result (list event) :=
  ets <- apply_mk_et (map g_action df) ;;
  Ok (map mk_event_of (combine (event_ids (List.length df)) (combine df ets))).

(** The whole function, from the frame read in step 1.  For a file
    without rows [read_csv] leaves the index untyped (no [DatetimeIndex]),
    and [df.index.strftime] of step 2 raises [AttributeError]. *)
Definition mk_event_df (df : list recommendation) : result (list event) :=
  match df with
  | [] => Raise AttributeError
  | _ :: _ => step4_2 (step4_1 (step3 (step2 df)))
  end.

(** What line 57 asks of a sort: the same rows, in ascending order of
    their timestamps.  The order of rows with equal timestamps is open. *)
Definition is_sort (sort : list row -> list row) : Prop :=
  forall df, Permutation (sort df) df /\
             StronglySorted (fun a b => ts_compare (index a) (index b) <> Gt) (sort df).

(** [mk_event_df] with the sort of line 57 as a parameter. *)
Definition mk_event_df_with (sort : list row -> list row)
    (df : list recommendation) : result (list event) :=
  match df with
  | [] => Raise AttributeError
  | _ :: _ => step4_2 (step4_1 (groups_last (groupby (sort (step2 df)))))
  end.

(** ** Vocabulary of the statements *)

Definition ev_key (e : event) : key := (e_event_date e, e_firm e).

Definition grouped_key (g : grouped) : key := (g_event_date g, g_firm g).

Definition key_lt (a b : key) : Prop := key_compare a b = Lt.

Definition ts_le_rows (a b : row) : Prop := ts_compare (index a) (index b) <> Gt.

(** The frame after deduplication, and after the relevance filter. *)
Definition deduplicated (df : list recommendation) : list grouped :=
  step3 (step2 df).

Definition relevant (df : list recommendation) : list grouped :=
  step4_1 (deduplicated df).

Definition ts (y m d hh mm ss : N) : Timestamp := mkTimestamp y m d hh mm ss.

(** The example of the specification, and the same rows with the two
    action texts the classifier knows. *)
Definition ex_sentences : list recommendation :=
  [ mkRec (ts 2020 1 1 9 0 0) "ABC" "upgrade to buy";
    mkRec (ts 2020 1 1 15 0 0) "ABC" "downgrade to sell" ].

Definition ex_tokens : list recommendation :=
  [ mkRec (ts 2020 1 1 9 0 0) "ABC" "up";
    mkRec (ts 2020 1 1 15 0 0) "ABC" "down" ].

(** A small sample: three firms, one of them twice on one day, one
    action that is no rating change. *)
Definition ex_sample : list recommendation :=
  [ mkRec (ts 2020 3 15 9 30 0) "Morgan Stanley" "up";
    mkRec (ts 2020 1 1 15 0 0) "abc" "down";
    mkRec (ts 2020 1 1 9 0 0) "abc" "up";
    mkRec (ts 2020 1 1 10 0 0) "Barclays" "init" ].

(** The calendar date of a timestamp, and the order of calendar dates. *)
Definition date_fields (t : Timestamp) : N * (N * N) :=
  (year t, (month t, day t)).

Definition date_compare (a b : Timestamp) : comparison :=
  pair_compare N.compare (pair_compare N.compare N.compare)
    (date_fields a) (date_fields b).

(** The fields [strftime_Ymd] prints fit their widths; this holds of every
    pandas timestamp (years 1677 to 2262). *)
Definition date_in_range (t : Timestamp) : Prop :=
  (year t < 10000)%N /\ (month t < 100)%N /\ (day t < 100)%N.

(** The key under which step 3 groups a row read. *)
Definition rec_key (r : recommendation) : key :=
  (strftime_Ymd (Date r), upper (Firm r)).

(** Text within ASCII, on which [upper] is [str.upper]. *)
Definition ascii_text (s : string) : Prop :=
  forall c, In c (list_ascii_of_string s) -> (N_of_ascii c < 128)%N.

(** The text is one of the two that [_mk_et] accepts. *)
Definition exact_action (value : string) : Prop :=
  value = "up" \/ value = "down".

(** ** Order lemmas *)

Lemma CompOpp_Lt (c : comparison) : CompOpp c = Lt <-> c = Gt.
Proof. destruct c; simpl; split; congruence. Qed.

#[export] Instance N_TotalCmp : TotalCmp N.compare.
Proof.
  split.
  - intros a b. apply N.compare_eq_iff.
  - intros a b. apply N.compare_antisym.
  - intros a b c Hab Hbc. rewrite N.compare_lt_iff in *. lia.
Qed.

#[export] Instance string_TotalCmp : TotalCmp String.compare.
Proof.
  split.
  - intros a b. apply String_as_OT.cmp_eq.
  - intros a b. apply String_as_OT.cmp_antisym.
  - intros a b c Hab Hbc.
    apply String_as_OT.cmp_lt. apply String_as_OT.cmp_lt in Hab, Hbc.
    eapply String_as_OT.lt_trans; eassumption.
Qed.

Section PairOrder.
Context {A B : Type} (cA : A -> A -> comparison) (cB : B -> B -> comparison).
Context `{HA : !TotalCmp cA} `{HB : !TotalCmp cB}.

Lemma cmp_refl_A (a : A) : cA a a = Eq.
Proof. apply cmp_eq. reflexivity. Qed.

Lemma pair_compare_eq (x y : A * B) : pair_compare cA cB x y = Eq <-> x = y.
Proof.
  destruct x as [a b], y as [a' b']. unfold pair_compare. simpl.
  destruct (cA a a') eqn:E.
  - apply cmp_eq in E. subst a'. rewrite (cmp_eq (cmp := cB)).
    split; [intros ->; reflexivity | intros H; inversion H; reflexivity].
  - split; [discriminate | intros H; inversion H; subst].
    rewrite cmp_refl_A in E. discriminate.
  - split; [discriminate | intros H; inversion H; subst].
    rewrite cmp_refl_A in E. discriminate.
Qed.

Lemma pair_compare_antisym (x y : A * B) :
  pair_compare cA cB y x = CompOpp (pair_compare cA cB x y).
Proof.
  destruct x as [a b], y as [a' b']. unfold pair_compare. simpl.
  rewrite (cmp_antisym (cmp := cA) a a').
  destruct (cA a a'); simpl; try reflexivity. apply cmp_antisym.
Qed.

Lemma pair_compare_trans (x y z : A * B) :
  pair_compare cA cB x y = Lt -> pair_compare cA cB y z = Lt ->
  pair_compare cA cB x z = Lt.
Proof.
  destruct x as [a b], y as [a' b'], z as [a'' b'']. unfold pair_compare. simpl.
  destruct (cA a a') eqn:E1; try discriminate;
    destruct (cA a' a'') eqn:E2; try discriminate; intros H1 H2.
  - apply cmp_eq in E1, E2. subst. rewrite cmp_refl_A.
    eapply cmp_trans; eassumption.
  - apply cmp_eq in E1. subst. rewrite E2. reflexivity.
  - apply cmp_eq in E2. subst. rewrite E1. reflexivity.
  - rewrite (cmp_trans a a' a'' E1 E2). reflexivity.
Qed.

#[export] Instance pair_TotalCmp : TotalCmp (pair_compare cA cB).
Proof.
  split.
  - apply pair_compare_eq.
  - apply pair_compare_antisym.
  - apply pair_compare_trans.
Qed.
End PairOrder.

#[export] Instance key_TotalCmp : TotalCmp key_compare.
Proof. unfold key_compare. typeclasses eauto. Qed.

Lemma ts_fields_inj (a b : Timestamp) : ts_fields a = ts_fields b -> a = b.
Proof.
  destruct a, b. unfold ts_fields. simpl. intros H. inversion H. reflexivity.
Qed.

#[export] Instance ts_TotalCmp : TotalCmp ts_compare.
Proof.
  assert (H : TotalCmp
    (pair_compare N.compare (pair_compare N.compare (pair_compare N.compare
      (pair_compare N.compare (pair_compare N.compare N.compare))))))
    by typeclasses eauto.
  split; unfold ts_compare.
  - intros a b. rewrite cmp_eq. split; [apply ts_fields_inj | congruence].
  - intros a b. apply cmp_antisym.
  - intros a b c. apply cmp_trans.
Qed.

Section CmpFacts.
Context {A : Type} (cmp : A -> A -> comparison) `{HC : !TotalCmp cmp}.

Lemma cmp_refl (a : A) : cmp a a = Eq.
Proof. apply (cmp_eq (cmp := cmp)). reflexivity. Qed.

Lemma cmp_gt_lt (a b : A) : cmp a b = Gt <-> cmp b a = Lt.
Proof. rewrite (cmp_antisym (cmp := cmp) a b). symmetry. apply CompOpp_Lt. Qed.

Lemma cmp_lt_irrefl (a : A) : cmp a a <> Lt.
Proof. rewrite cmp_refl. discriminate. Qed.

Lemma cmp_lt_asym (a b : A) : cmp a b = Lt -> cmp b a <> Lt.
Proof. intros H. rewrite (cmp_antisym (cmp := cmp) a b), H. discriminate. Qed.

Lemma cmp_le_trans (a b c : A) :
  cmp a b <> Gt -> cmp b c <> Gt -> cmp a c <> Gt.
Proof.
  intros Hab Hbc Hac. apply cmp_gt_lt in Hac.
  destruct (cmp a b) eqn:E1; [| | congruence].
  - apply cmp_eq in E1. subst b. apply cmp_gt_lt in Hac. congruence.
  - destruct (cmp b c) eqn:E2; [| | congruence].
    + apply cmp_eq in E2. subst c. eapply cmp_lt_asym; eassumption.
    + pose proof (cmp_trans _ _ _ E1 E2) as E3.
      eapply cmp_lt_asym; eassumption.
Qed.

Lemma cmp_le_antisym (a b : A) : cmp a b <> Gt -> cmp b a <> Gt -> a = b.
Proof.
  intros Hab Hba. destruct (cmp a b) eqn:E; [| | congruence].
  - apply cmp_eq. exact E.
  - exfalso. apply Hba. apply cmp_gt_lt. exact E.
Qed.
End CmpFacts.

Lemma ts_leb_true (a b : Timestamp) : ts_leb a b = true <-> ts_compare a b <> Gt.
Proof. unfold ts_leb. destruct (ts_compare a b); split; congruence. Qed.

Lemma ts_leb_false (a b : Timestamp) : ts_leb a b = false <-> ts_compare b a = Lt.
Proof.
  unfold ts_leb. rewrite <- (cmp_gt_lt ts_compare).
  destruct (ts_compare a b); split; congruence.
Qed.

Lemma ts_ltb_true (a b : Timestamp) : ts_ltb a b = true <-> ts_compare a b = Lt.
Proof. unfold ts_ltb. destruct (ts_compare a b); split; congruence. Qed.

Lemma key_eqb_eq (a b : key) : key_eqb a b = true <-> a = b.
Proof.
  unfold key_eqb. rewrite <- (cmp_eq (cmp := key_compare)).
  destruct (key_compare a b); split; congruence.
Qed.

Lemma key_eqb_refl (a : key) : key_eqb a a = true.
Proof. apply key_eqb_eq. reflexivity. Qed.

(** ** Text lemmas *)

Lemma prefix_app (p s : string) :
  String.prefix p s = true <-> exists b, s = p ++ b.
Proof.
  revert s. induction p as [|c p IH]; intros s; simpl.
  - split; [intros _; exists s; reflexivity | destruct s; reflexivity].
  - destruct s as [|d s].
    + split; [discriminate | intros [b H]; discriminate].
    + simpl. destruct (ascii_dec c d) as [->|Hne].
      * rewrite IH. split; intros [b H]; exists b; congruence.
      * split; [discriminate | intros [b H]; congruence].
Qed.

Lemma re_search_spec (alts : list string) (s : string) :
  re_search alts s = true <-> exists p, In p alts /\ has_substring p s.
Proof.
  assert (Hhere : forall t, existsb (fun p => String.prefix p t) alts = true ->
            exists p, In p alts /\ has_substring p t).
  { intros t H. apply existsb_exists in H. destruct H as [p [Hin Hp]].
    apply prefix_app in Hp. destruct Hp as [b ->].
    exists p. split; [exact Hin | exists "", b; reflexivity]. }
  split.
  - induction s as [|c s IH]; cbn [re_search]; rewrite orb_true_iff; intros [H|H].
    + auto.
    + discriminate.
    + auto.
    + destruct (IH H) as [p [Hin [a [b ->]]]].
      exists p. split; [exact Hin | exists (String c a), b; reflexivity].
  - intros [p [Hin [a [b ->]]]]. induction a as [|c a IH].
    + assert (Hp : existsb (fun q => String.prefix q (p ++ b)) alts = true).
      { apply existsb_exists. exists p. split; [exact Hin|].
        apply prefix_app. exists b. reflexivity. }
      change ("" ++ p ++ b) with (p ++ b).
      destruct (p ++ b); cbn [re_search]; rewrite Hp; reflexivity.
    + change (String c a ++ p ++ b) with (String c (a ++ p ++ b)).
      cbn [re_search]. rewrite IH. apply orb_true_r.
Qed.

Lemma str_contains_spec (s : string) :
  str_contains_up_down s = true <-> has_substring "up" s \/ has_substring "down" s.
Proof.
  unfold str_contains_up_down. rewrite re_search_spec. split.
  - intros [p [[<-|[<-|[]]] H]]; auto.
  - intros [H|H]; [exists "up" | exists "down"]; simpl; auto.
Qed.

Lemma str_contains_false (s : string) :
  str_contains_up_down s = false <->
  ~ has_substring "up" s /\ ~ has_substring "down" s.
Proof.
  rewrite <- not_true_iff_false, str_contains_spec. tauto.
Qed.

(** ** The classifier *)

Lemma _mk_et_down : _mk_et "down" = Ok "downgrade".
Proof. reflexivity. Qed.

Lemma _mk_et_up : _mk_et "up" = Ok "upgrade".
Proof. reflexivity. Qed.

Lemma _mk_et_other (value : string) :
  value <> "down" -> value <> "up" -> _mk_et value = Raise (unknown_value value).
Proof.
  intros Hd Hu. unfold _mk_et.
  apply String.eqb_neq in Hd, Hu. rewrite Hd, Hu. reflexivity.
Qed.

Lemma _mk_et_cases (value : string) :
  (value = "down" /\ _mk_et value = Ok "downgrade") \/
  (value = "up" /\ _mk_et value = Ok "upgrade") \/
  (value <> "down" /\ value <> "up" /\ _mk_et value = Raise (unknown_value value)).
Proof.
  destruct (string_dec value "down") as [->|Hd]; [left; auto|].
  destruct (string_dec value "up") as [->|Hu]; [right; left; auto|].
  right; right. auto using _mk_et_other.
Qed.

Lemma _mk_et_ok (value et : string) :
  _mk_et value = Ok et ->
  (value = "down" /\ et = "downgrade") \/ (value = "up" /\ et = "upgrade").
Proof.
  destruct (_mk_et_cases value) as [[-> H]|[[-> H]|[_ [_ H]]]];
    rewrite H; intros E; inversion E; auto.
Qed.

Lemma exact_contains (value : string) :
  value = "up" \/ value = "down" -> str_contains_up_down value = true.
Proof. intros [->| ->]; reflexivity. Qed.

Lemma apply_mk_et_ok (col : list string) (ets : list string) :
  apply_mk_et col = Ok ets <-> Forall2 (fun v t => _mk_et v = Ok t) col ets.
Proof.
  revert ets. induction col as [|v col IH]; intros ets; simpl.
  - split.
    + intros E. inversion E. constructor.
    + intros H. inversion H. reflexivity.
  - destruct (_mk_et v) as [t|e] eqn:Ev; simpl.
    + destruct (apply_mk_et col) as [ts'|e] eqn:Ec; simpl.
      * split.
        -- intros E. inversion E. subst. constructor; [exact Ev|]. apply IH. reflexivity.
        -- intros H. inversion H; subst. apply IH in H4. inversion H4.
           rewrite Ev in H2. inversion H2. reflexivity.
      * split; [discriminate|]. intros H. inversion H; subst.
        apply IH in H4. discriminate.
    + split; [discriminate|]. intros H. inversion H; subst. congruence.
Qed.

Lemma apply_mk_et_first (pre post : list string) (v : string) (e : exn) :
  Forall (fun x => exists t, _mk_et x = Ok t) pre ->
  _mk_et v = Raise e ->
  apply_mk_et (pre ++ v :: post)%list = Raise e.
Proof.
  intros Hpre Hv. induction Hpre as [|x pre [t Hx] _ IH]; simpl.
  - rewrite Hv. reflexivity.
  - rewrite Hx, IH. reflexivity.
Qed.

Lemma apply_mk_et_raise (col : list string) (e : exn) :
  apply_mk_et col = Raise e ->
  exists pre v post, col = (pre ++ v :: post)%list /\
    Forall (fun x => exists t, _mk_et x = Ok t) pre /\ _mk_et v = Raise e.
Proof.
  induction col as [|x col IH]; simpl; [discriminate|].
  destruct (_mk_et x) as [t|e'] eqn:Ex; simpl.
  - destruct (apply_mk_et col) as [ts'|e''] eqn:Ec; simpl; [discriminate|].
    intros E. inversion E; subst.
    destruct (IH eq_refl) as [pre [v [post [-> [Hpre Hv]]]]].
    exists (x :: pre), v, post. repeat split; eauto.
  - intros E. inversion E; subst. exists [], x, col. repeat split; auto.
Qed.

(** ** Sorted lists *)

Lemma StronglySorted_In {A : Type} (R : A -> A -> Prop) (l : list A) (a b : A) :
  StronglySorted R l -> In a l -> In b l -> a = b \/ R a b \/ R b a.
Proof.
  induction 1 as [|x l Hs IH Hx]; simpl; [tauto|].
  rewrite Forall_forall in Hx.
  intros [<-|Ha] [<-|Hb]; auto.
Qed.

Lemma StronglySorted_map {A B : Type} (f : A -> B) (R : B -> B -> Prop) (l : list A) :
  StronglySorted R (map f l) <-> StronglySorted (fun a b => R (f a) (f b)) l.
Proof.
  induction l as [|x l IH]; simpl.
  - split; constructor.
  - split; intros H; inversion H; subst; constructor;
      try (apply IH; assumption).
    + rewrite Forall_map in H3. exact H3.
    + rewrite Forall_map. exact H3.
Qed.

Lemma StronglySorted_conj {A : Type} (R S : A -> A -> Prop) (l : list A) :
  StronglySorted R l -> StronglySorted S l ->
  StronglySorted (fun a b => R a b /\ S a b) l.
Proof.
  induction 1 as [|x l Hs IH Hx]; intros H2; inversion H2; subst; constructor.
  - apply IH. assumption.
  - rewrite Forall_forall in *. auto.
Qed.

Lemma StronglySorted_filter {A : Type} (R : A -> A -> Prop) (f : A -> bool) (l : list A) :
  StronglySorted R l -> StronglySorted R (filter f l).
Proof.
  induction 1 as [|x l Hs IH Hx]; simpl; [constructor|].
  destruct (f x); [|exact IH].
  constructor; [exact IH|].
  rewrite Forall_forall in *. intros y Hy. apply filter_In in Hy. apply Hx, Hy.
Qed.

(** Two ascending arrangements of the same rows are the same list when no
    two rows are equal in the sort key. *)
Lemma sorted_perm_unique {A K : Type} (cmp : K -> K -> comparison) `{!TotalCmp cmp}
    (f : A -> K) (l1 l2 : list A) :
  StronglySorted (fun a b => cmp (f a) (f b) <> Gt) l1 ->
  StronglySorted (fun a b => cmp (f a) (f b) <> Gt) l2 ->
  Permutation l1 l2 ->
  NoDup (map f l1) ->
  l1 = l2.
Proof.
  revert l2. induction l1 as [|x l1 IH]; intros l2 H1 H2 Hp Hn.
  - apply Permutation_nil in Hp. congruence.
  - destruct l2 as [|y l2].
    + apply Permutation_sym, Permutation_nil in Hp. discriminate.
    + inversion H1 as [|? ? Hs1 Hx1]; subst. inversion H2 as [|? ? Hs2 Hy2]; subst.
      simpl in Hn. inversion Hn as [|? ? Hnx Hn']; subst.
      rewrite Forall_forall in Hx1, Hy2.
      assert (Hxy : x = y).
      { assert (Hy : In y (x :: l1)).
        { eapply Permutation_in; [apply Permutation_sym, Hp | left; reflexivity]. }
        destruct Hy as [Hy|Hy]; [exact Hy|].
        assert (Hx : In x (y :: l2)).
        { eapply Permutation_in; [apply Hp | left; reflexivity]. }
        destruct Hx as [Hx|Hx]; [congruence|].
        exfalso. apply Hnx.
        rewrite (cmp_le_antisym cmp (f x) (f y) (Hx1 y Hy) (Hy2 x Hx)).
        apply in_map. exact Hy. }
      subst y. f_equal. apply IH; auto.
      eapply Permutation_cons_inv. exact Hp.
Qed.

(** ** [sort_index] *)

Lemma insert_row_perm (r : row) (df : list row) :
  Permutation (insert_row r df) (r :: df).
Proof.
  induction df as [|x df IH]; simpl; [reflexivity|].
  destruct (ts_leb (index r) (index x)); [reflexivity|].
  rewrite IH. apply perm_swap.
Qed.

Lemma sort_index_perm (df : list row) : Permutation (sort_index df) df.
Proof.
  induction df as [|r df IH]; simpl; [reflexivity|].
  rewrite insert_row_perm, IH. reflexivity.
Qed.

Lemma insert_row_sorted (r : row) (df : list row) :
  StronglySorted ts_le_rows df -> StronglySorted ts_le_rows (insert_row r df).
Proof.
  induction 1 as [|x df Hs IH Hx]; simpl.
  - constructor; constructor.
  - destruct (ts_leb (index r) (index x)) eqn:E.
    + apply ts_leb_true in E. constructor.
      * constructor; assumption.
      * constructor; [exact E|].
        rewrite Forall_forall in *. intros y Hy. unfold ts_le_rows.
        eapply (cmp_le_trans ts_compare); [exact E | apply Hx, Hy].
    + apply ts_leb_false in E. constructor; [exact IH|].
      rewrite Forall_forall in *. intros y Hy.
      eapply Permutation_in in Hy; [|apply insert_row_perm].
      destruct Hy as [<-|Hy]; [|apply Hx, Hy].
      unfold ts_le_rows. intros Hgt. apply (cmp_gt_lt ts_compare) in Hgt.
      eapply (cmp_lt_asym ts_compare); eassumption.
Qed.

Lemma sort_index_sorted (df : list row) : StronglySorted ts_le_rows (sort_index df).
Proof.
  induction df as [|r df IH]; simpl; [constructor|].
  apply insert_row_sorted, IH.
Qed.

Lemma sort_index_two (a b : row) :
  ts_compare (index a) (index b) = Lt ->
  sort_index [a; b] = [a; b] /\ sort_index [b; a] = [a; b].
Proof.
  intros H. simpl.
  assert (H1 : ts_leb (index a) (index b) = true).
  { apply ts_leb_true. congruence. }
  assert (H2 : ts_leb (index b) (index a) = false).
  { apply ts_leb_false. exact H. }
  rewrite H1, H2. auto.
Qed.

(** On a frame of pairwise distinct timestamps there is one ascending
    arrangement of the rows, so every sort returns what [sort_index]
    returns. *)
Lemma sort_index_is_the_sort (df sorted : list row) :
  NoDup (map index df) ->
  Permutation sorted df ->
  StronglySorted ts_le_rows sorted ->
  sorted = sort_index df.
Proof.
  intros Hn Hp Hs.
  apply (sorted_perm_unique ts_compare index).
  - exact Hs.
  - apply sort_index_sorted.
  - rewrite sort_index_perm. exact Hp.
  - eapply Permutation_NoDup; [|exact Hn].
    apply Permutation_map, Permutation_sym, Hp.
Qed.

(** The sorted frame does not depend on the order of the rows read when
    the timestamps are pairwise distinct. *)
Lemma sort_index_order_free (df df' : list row) :
  Permutation df df' -> NoDup (map index df) -> sort_index df = sort_index df'.
Proof.
  intros Hp Hn.
  apply (sorted_perm_unique ts_compare index).
  - apply sort_index_sorted.
  - apply sort_index_sorted.
  - rewrite !sort_index_perm. exact Hp.
  - eapply Permutation_NoDup; [|exact Hn].
    apply Permutation_map, Permutation_sym, sort_index_perm.
Qed.

(** ** [groupby] and [last] *)

Lemma insert_key_In (k k' : key) (ks : list key) :
  In k' (insert_key k ks) <-> k' = k \/ In k' ks.
Proof.
  induction ks as [|x ks IH]; simpl; [intuition auto|].
  destruct (key_compare k x) eqn:E; simpl.
  - apply (cmp_eq (cmp := key_compare)) in E. subst x. intuition auto.
  - intuition auto.
  - rewrite IH. intuition auto.
Qed.

Lemma insert_key_sorted (k : key) (ks : list key) :
  StronglySorted key_lt ks -> StronglySorted key_lt (insert_key k ks).
Proof.
  induction 1 as [|x ks Hs IH Hx]; simpl.
  - constructor; constructor.
  - destruct (key_compare k x) eqn:E.
    + constructor; assumption.
    + constructor; [constructor; assumption|].
      constructor; [exact E|].
      rewrite Forall_forall in *. intros y Hy.
      eapply (cmp_trans (cmp := key_compare)); [exact E | apply Hx, Hy].
    + constructor; [exact IH|].
      rewrite Forall_forall in *. intros y Hy.
      apply insert_key_In in Hy. destruct Hy as [->|Hy]; [|apply Hx, Hy].
      apply (cmp_gt_lt key_compare). exact E.
Qed.

Lemma group_keys_In (df : list row) (k : key) :
  In k (group_keys df) <-> In k (map row_key df).
Proof.
  unfold group_keys. induction df as [|r df IH]; simpl; [tauto|].
  rewrite insert_key_In, IH. intuition auto.
Qed.

Lemma group_keys_sorted (df : list row) : StronglySorted key_lt (group_keys df).
Proof.
  unfold group_keys. induction df as [|r df IH]; simpl; [constructor|].
  apply insert_key_sorted, IH.
Qed.

Lemma last_row_In (g : list row) (r : row) : last_row g = Some r -> In r g.
Proof.
  induction g as [|x g IH]; simpl; [discriminate|].
  destruct g as [|y g].
  - intros E. inversion E. auto.
  - intros E. right. apply IH, E.
Qed.

Lemma last_row_some (g : list row) : g <> [] -> exists r, last_row g = Some r.
Proof.
  induction g as [|x g IH]; [congruence|]. intros _.
  destruct g as [|y g]; [exists x; reflexivity|].
  apply IH. discriminate.
Qed.

Lemma last_row_app (g : list row) (r : row) : last_row (g ++ [r])%list = Some r.
Proof.
  induction g as [|x g IH]; [reflexivity|].
  simpl. rewrite IH. destruct (g ++ [r])%list eqn:E; [|reflexivity].
  destruct g; discriminate.
Qed.

(** The group of a key that occurs in the frame has a last row. *)
Lemma group_last (df : list row) (k : key) :
  In k (map row_key df) ->
  exists r, last_row (filter (fun r => key_eqb (row_key r) k) df) = Some r /\
            In r df /\ row_key r = k.
Proof.
  intros Hin. apply in_map_iff in Hin. destruct Hin as [r0 [Hk Hr0]].
  destruct (last_row_some (filter (fun r => key_eqb (row_key r) k) df)) as [r Hr].
  - intros E. assert (H : In r0 (filter (fun r => key_eqb (row_key r) k) df)).
    { apply filter_In. split; [exact Hr0|]. apply key_eqb_eq. exact Hk. }
    rewrite E in H. exact H.
  - exists r. split; [exact Hr|].
    apply last_row_In, filter_In in Hr. destruct Hr as [H1 H2].
    apply key_eqb_eq in H2. auto.
Qed.

Lemma groups_last_keys (df : list row) (ks : list key) :
  (forall k, In k ks -> In k (map row_key df)) ->
  map grouped_key
    (groups_last (map (fun k => (k, filter (fun r => key_eqb (row_key r) k) df)) ks)) = ks.
Proof.
  induction ks as [|k ks IH]; intros H; [reflexivity|].
  simpl. destruct (group_last df k) as [r [Hr _]]; [apply H; left; reflexivity|].
  rewrite Hr. simpl. destruct k as [d f]. unfold grouped_key at 1. simpl.
  f_equal. apply IH. intros k' Hk'. apply H. right. exact Hk'.
Qed.

(** One row per key of the frame, in ascending key order. *)
Lemma step3_keys (df : list row) :
  map grouped_key (step3 df) = group_keys (sort_index df).
Proof.
  unfold step3, groupby. apply groups_last_keys.
  intros k. apply group_keys_In.
Qed.

(** Every row that [last] returns is the last row of its group. *)
Lemma step3_In (df : list row) (g : grouped) :
  In g (step3 df) <->
  exists r, last_row (filter (fun x => key_eqb (row_key x) (grouped_key g)) (sort_index df)) = Some r /\
            g_action g = action r /\ In (grouped_key g) (map row_key df).
Proof.
  unfold step3, groupby, groups_last. rewrite in_flat_map. split.
  - intros [[k rows] [Hin Hg]]. simpl in Hg.
    apply in_map_iff in Hin. destruct Hin as [k' [E Hk']]. inversion E; subst k' rows.
    destruct (last_row _) as [r|] eqn:Hr; [|destruct Hg].
    destruct Hg as [<-|[]]. unfold grouped_key. simpl.
    destruct k as [d f]. simpl. exists r. repeat split; [exact Hr|].
    apply group_keys_In in Hk'. rewrite in_map_iff in *.
    destruct Hk' as [x [Hx1 Hx2]]. exists x. split; [exact Hx1|].
    eapply Permutation_in; [apply sort_index_perm | exact Hx2].
  - intros [r [Hr [Ha Hk]]].
    exists (grouped_key g, filter (fun x => key_eqb (row_key x) (grouped_key g)) (sort_index df)).
    split.
    + apply in_map_iff. exists (grouped_key g). split; [reflexivity|].
      apply group_keys_In. rewrite in_map_iff in *.
      destruct Hk as [x [Hx1 Hx2]]. exists x. split; [exact Hx1|].
      eapply Permutation_in; [apply Permutation_sym, sort_index_perm | exact Hx2].
    + simpl. rewrite Hr. left. destruct g; simpl in *. congruence.
Qed.

Lemma step3_origin (df : list row) (g : grouped) :
  In g (step3 df) ->
  exists r, In r df /\ row_key r = grouped_key g /\ action r = g_action g.
Proof.
  intros H. apply step3_In in H. destruct H as [r [Hr [Ha _]]].
  apply last_row_In, filter_In in Hr. destruct Hr as [H1 H2].
  apply key_eqb_eq in H2. exists r. repeat split; auto.
  eapply Permutation_in; [apply sort_index_perm | exact H1].
Qed.

(** ** Steps 4.2 to 4.4 *)

Lemma event_ids_seq (n : nat) : event_ids n = map Z.of_nat (seq 1 n).
Proof.
  unfold event_ids, range_index. rewrite <- seq_shift, !map_map.
  apply map_ext. intros i. lia.
Qed.

Lemma event_ids_length (n : nat) : List.length (event_ids n) = n.
Proof. unfold event_ids, range_index. rewrite !length_map. apply length_seq. Qed.

Lemma event_ids_sorted (n : nat) : StronglySorted Z.lt (event_ids n).
Proof.
  rewrite event_ids_seq. generalize 1%nat as s.
  induction n as [|n IH]; intros s; simpl; constructor.
  - apply IH.
  - rewrite Forall_map, Forall_forall. intros i Hi. apply in_seq in Hi. lia.
Qed.

Lemma events_of_zip (ids : list Z) (df : list grouped) (ets : list string) :
  List.length ids = List.length df -> List.length ets = List.length df ->
  map event_id (map mk_event_of (combine ids (combine df ets))) = ids /\
  map ev_key (map mk_event_of (combine ids (combine df ets))) = map grouped_key df /\
  map event_type (map mk_event_of (combine ids (combine df ets))) = ets.
Proof.
  revert ids ets. induction df as [|g df IH]; intros [|i ids] [|t ets]; simpl;
    try discriminate; auto.
  intros H1 H2. destruct (IH ids ets) as [E1 [E2 E3]]; [lia | lia |].
  rewrite E1, E2, E3. auto.
Qed.

Lemma Forall2_length_eq {A B : Type} (R : A -> B -> Prop) (l1 : list A) (l2 : list B) :
  Forall2 R l1 l2 -> List.length l1 = List.length l2.
Proof. induction 1; simpl; congruence. Qed.

Lemma Forall2_In_l {A B : Type} (R : A -> B -> Prop) (l1 : list A) (l2 : list B) (a : A) :
  Forall2 R l1 l2 -> In a l1 -> exists b, In b l2 /\ R a b.
Proof.
  induction 1 as [|x y l1 l2 Hxy _ IH]; simpl; [tauto|].
  intros [<-|Ha]; [eauto|].
  destruct (IH Ha) as [b [Hb Hab]]. eauto.
Qed.

Lemma Forall2_In_r {A B : Type} (R : A -> B -> Prop) (l1 : list A) (l2 : list B) (b : B) :
  Forall2 R l1 l2 -> In b l2 -> exists a, In a l1 /\ R a b.
Proof.
  induction 1 as [|x y l1 l2 Hxy _ IH]; simpl; [tauto|].
  intros [<-|Hb]; [eauto|].
  destruct (IH Hb) as [a [Ha Hab]]. eauto.
Qed.

(** What a successful call of the last steps returns. *)
Lemma step4_2_ok (df : list grouped) (out : list event) :
  step4_2 df = Ok out ->
  map event_id out = event_ids (List.length df) /\
  map ev_key out = map grouped_key df /\
  apply_mk_et (map g_action df) = Ok (map event_type out).
Proof.
  unfold step4_2. destruct (apply_mk_et (map g_action df)) as [ets|e] eqn:E; simpl;
    [|discriminate].
  intros H. inversion H; subst out. clear H.
  apply apply_mk_et_ok, Forall2_length_eq in E. rewrite length_map in E.
  destruct (events_of_zip (event_ids (List.length df)) df ets) as [E1 [E2 E3]].
  - apply event_ids_length.
  - congruence.
  - rewrite E1, E2, E3. auto.
Qed.

Lemma step4_2_length (df : list grouped) (out : list event) :
  step4_2 df = Ok out -> List.length out = List.length df.
Proof.
  intros H. apply step4_2_ok in H. destruct H as [_ [H _]].
  apply (f_equal (@List.length key)) in H. rewrite !length_map in H. exact H.
Qed.

Lemma step4_2_raise (df : list grouped) (e : exn) :
  step4_2 df = Raise e <-> apply_mk_et (map g_action df) = Raise e.
Proof.
  unfold step4_2. destruct (apply_mk_et (map g_action df)); simpl;
    split; congruence.
Qed.

(** The last steps succeed exactly on frames whose actions are all the
    text [up] or the text [down]. *)
Lemma step4_2_succeeds (df : list grouped) :
  (exists out, step4_2 df = Ok out) <->
  Forall (fun g => g_action g = "up" \/ g_action g = "down") df.
Proof.
  split.
  - intros [out H]. apply step4_2_ok in H. destruct H as [_ [_ H]].
    apply apply_mk_et_ok in H. rewrite Forall_forall. intros g Hg.
    assert (Hin : In (g_action g) (map g_action df)) by (apply in_map; exact Hg).
    destruct (Forall2_In_l _ _ _ _ H Hin) as [t [_ Ht]].
    apply _mk_et_ok in Ht. tauto.
  - intros H. unfold step4_2.
    destruct (apply_mk_et (map g_action df)) as [ets|e] eqn:E; simpl; [eauto|].
    exfalso. apply apply_mk_et_raise in E.
    destruct E as [pre [v [post [Hc [_ Hv]]]]].
    assert (Hin : In v (map g_action df)).
    { rewrite Hc. apply in_or_app. right. left. reflexivity. }
    apply in_map_iff in Hin. destruct Hin as [g [<- Hg]].
    rewrite Forall_forall in H. destruct (H g Hg) as [Hu|Hd].
    + rewrite Hu in Hv. discriminate.
    + rewrite Hd in Hv. discriminate.
Qed.

Lemma map_eq_Forall2 {A B C : Type} (f : A -> C) (g : B -> C) (l1 : list A) (l2 : list B) :
  map f l1 = map g l2 -> Forall2 (fun a b => f a = g b) l1 l2.
Proof.
  revert l2. induction l1 as [|a l1 IH]; intros [|b l2]; simpl; try discriminate.
  - constructor.
  - intros H. inversion H. constructor; auto.
Qed.

Lemma Forall2_map_both {A B C D : Type} (R : C -> D -> Prop) (f : A -> C) (g : B -> D)
    (l1 : list A) (l2 : list B) :
  Forall2 R (map f l1) (map g l2) -> Forall2 (fun a b => R (f a) (g b)) l1 l2.
Proof.
  revert l2. induction l1 as [|a l1 IH]; intros [|b l2]; simpl; intros H;
    inversion H; subst; constructor; auto.
Qed.

Lemma Forall2_and {A B : Type} (R S : A -> B -> Prop) (l1 : list A) (l2 : list B) :
  Forall2 R l1 l2 -> Forall2 S l1 l2 -> Forall2 (fun a b => R a b /\ S a b) l1 l2.
Proof.
  induction 1; intros H2; inversion H2; subst; constructor; auto.
Qed.

(** Row by row: an event has the keys of its row and the type of its
    action. *)
Lemma step4_2_rows (df : list grouped) (out : list event) :
  step4_2 df = Ok out ->
  Forall2 (fun g e => grouped_key g = ev_key e /\ _mk_et (g_action g) = Ok (event_type e))
    df out.
Proof.
  intros H. apply step4_2_ok in H. destruct H as [_ [Hk Ht]].
  apply Forall2_and.
  - apply map_eq_Forall2. symmetry. exact Hk.
  - apply apply_mk_et_ok in Ht. apply Forall2_map_both in Ht. exact Ht.
Qed.

(** ** The whole function *)

Lemma mk_event_df_nonempty (df : list recommendation) :
  df <> [] -> mk_event_df df = step4_2 (relevant df).
Proof. destruct df; [congruence | reflexivity]. Qed.

Lemma mk_event_df_ok (df : list recommendation) (out : list event) :
  mk_event_df df = Ok out -> step4_2 (step4_1 (step3 (step2 df))) = Ok out.
Proof. destruct df; [discriminate | exact (fun H => H)]. Qed.

Lemma deduplicated_sorted (df : list recommendation) :
  StronglySorted key_lt (map grouped_key (deduplicated df)).
Proof.
  unfold deduplicated. rewrite step3_keys. apply group_keys_sorted.
Qed.

Lemma relevant_sorted (df : list recommendation) :
  StronglySorted key_lt (map grouped_key (relevant df)).
Proof.
  unfold relevant, step4_1. apply StronglySorted_map, StronglySorted_filter.
  apply StronglySorted_map, deduplicated_sorted.
Qed.

Lemma relevant_In (df : list recommendation) (g : grouped) :
  In g (relevant df) <->
  In g (deduplicated df) /\ str_contains_up_down (g_action g) = true.
Proof. unfold relevant, step4_1. apply filter_In. Qed.

Lemma deduplicated_origin (df : list recommendation) (g : grouped) :
  In g (deduplicated df) ->
  exists r, In r df /\ g_firm g = upper (Firm r) /\
            g_event_date g = strftime_Ymd (Date r) /\ g_action g = Action r.
Proof.
  intros H. apply step3_origin in H. destruct H as [x [Hx [Hk Ha]]].
  unfold step2 in Hx. apply in_map_iff in Hx. destruct Hx as [r [<- Hr]].
  unfold row_key, grouped_key in Hk. simpl in *. inversion Hk.
  exists r. auto.
Qed.

Lemma step3_order_free (df df' : list recommendation) :
  Permutation df df' -> NoDup (map Date df) ->
  step3 (step2 df) = step3 (step2 df').
Proof.
  intros Hp Hn. unfold step3.
  rewrite (sort_index_order_free (step2 df) (step2 df')); [reflexivity | |].
  - unfold step2. apply Permutation_map. exact Hp.
  - unfold step2. rewrite map_map. simpl. exact Hn.
Qed.

Lemma mk_event_df_order_free (df df' : list recommendation) :
  Permutation df df' -> NoDup (map Date df) -> mk_event_df df = mk_event_df df'.
Proof.
  intros Hp Hn. pose proof (step3_order_free df df' Hp Hn) as E.
  destruct df as [|r df]; [apply Permutation_nil in Hp; subst; reflexivity|].
  destruct df' as [|r' df']; [apply Permutation_sym, Permutation_nil in Hp; discriminate|].
  unfold mk_event_df. rewrite E. reflexivity.
Qed.

(** ** Properties of the returned frame *)

(** C5: when [mk_event_df] returns, the [event_id] index of the returned
    frame is exactly 1, 2, ..., N in this order, N being the number of its
    rows. *)
Theorem event_id_dense (df : list recommendation) (out : list event) :
  mk_event_df df = Ok out ->
  map event_id out = map Z.of_nat (seq 1 (List.length out)).
Proof.
  intros H. apply mk_event_df_ok in H.
  rewrite <- event_ids_seq, (step4_2_length _ _ H).
  apply step4_2_ok in H. apply H.
Qed.

Lemma event_id_dense_witness :
  mk_event_df ex_sample =
    Ok [ mkEvent 1 "ABC" "2020-01-01" "downgrade";
         mkEvent 2 "MORGAN STANLEY" "2020-03-15" "upgrade" ] /\
  map event_id [ mkEvent 1 "ABC" "2020-01-01" "downgrade";
                 mkEvent 2 "MORGAN STANLEY" "2020-03-15" "upgrade" ] = [1%Z; 2%Z].
Proof.
  split; [vm_compute; reflexivity|].
  apply (event_id_dense ex_sample). vm_compute. reflexivity.
Defined.

(** C8: when [mk_event_df] returns, every [event_type] of the returned
    frame is the text [upgrade] or the text [downgrade]. *)
Theorem event_type_closed (df : list recommendation) (out : list event) :
  mk_event_df df = Ok out ->
  forall e, In e out -> event_type e = "upgrade" \/ event_type e = "downgrade".
Proof.
  intros H e He. apply mk_event_df_ok, step4_2_rows in H.
  destruct (Forall2_In_r _ _ _ _ H He) as [g [_ [_ Hg]]].
  apply _mk_et_ok in Hg. tauto.
Qed.

Lemma event_type_closed_witness :
  mk_event_df ex_tokens = Ok [mkEvent 1 "ABC" "2020-01-01" "downgrade"] /\
  (event_type (mkEvent 1 "ABC" "2020-01-01" "downgrade") = "upgrade" \/
   event_type (mkEvent 1 "ABC" "2020-01-01" "downgrade") = "downgrade").
Proof.
  split; [vm_compute; reflexivity|].
  apply (event_type_closed ex_tokens [mkEvent 1 "ABC" "2020-01-01" "downgrade"]).
  - vm_compute. reflexivity.
  - simpl. left. reflexivity.
Defined.

(** C6: the rows of the returned frame are in ascending order of the pair
    [(event_date, firm)]: of two rows, the one with the smaller pair has the
    smaller [event_id], and conversely.  This holds whatever the order of
    the rows read; when no two rows read have the same timestamp, the whole
    result is the same for every order of the rows read. *)
Theorem events_in_key_order (df : list recommendation) (out : list event) :
  mk_event_df df = Ok out ->
  (forall e1 e2, In e1 out -> In e2 out ->
     (key_lt (ev_key e1) (ev_key e2) <-> (event_id e1 < event_id e2)%Z)) /\
  (forall df', Permutation df df' -> NoDup (map Date df) -> mk_event_df df' = Ok out).
Proof.
  intros H. split.
  - assert (Hs : StronglySorted
      (fun a b => key_lt (ev_key a) (ev_key b) /\ (event_id a < event_id b)%Z) out).
    { apply mk_event_df_ok, step4_2_ok in H. destruct H as [Hi [Hk _]].
      apply StronglySorted_conj.
      - apply (StronglySorted_map ev_key key_lt). rewrite Hk. apply relevant_sorted.
      - apply (StronglySorted_map event_id Z.lt). rewrite Hi. apply event_ids_sorted. }
    intros e1 e2 H1 H2.
    destruct (StronglySorted_In _ _ _ _ Hs H1 H2) as [<-|[[Hk Hi]|[Hk Hi]]].
    + split; intros Hlt.
      * exfalso. exact (cmp_lt_irrefl key_compare _ Hlt).
      * lia.
    + tauto.
    + split; intros Hlt.
      * exfalso. exact (cmp_lt_asym key_compare _ _ Hk Hlt).
      * lia.
  - intros df' Hp Hn. rewrite <- (mk_event_df_order_free df df' Hp Hn). exact H.
Qed.

Lemma events_in_key_order_witness :
  mk_event_df (rev ex_sample) =
    Ok [ mkEvent 1 "ABC" "2020-01-01" "downgrade";
         mkEvent 2 "MORGAN STANLEY" "2020-03-15" "upgrade" ] /\
  (key_lt ("2020-01-01", "ABC") ("2020-03-15", "MORGAN STANLEY") <-> (1 < 2)%Z).
Proof.
  assert (Hok : mk_event_df ex_sample =
    Ok [ mkEvent 1 "ABC" "2020-01-01" "downgrade";
         mkEvent 2 "MORGAN STANLEY" "2020-03-15" "upgrade" ])
    by (vm_compute; reflexivity).
  destruct (events_in_key_order ex_sample _ Hok) as [Hord Hperm].
  split.
  - apply Hperm.
    + apply Permutation_rev.
    + simpl. repeat constructor; simpl; intuition discriminate.
  - apply (Hord (mkEvent 1 "ABC" "2020-01-01" "downgrade")
                (mkEvent 2 "MORGAN STANLEY" "2020-03-15" "upgrade"));
      simpl; auto.
Defined.

(** ** Normalised columns *)

Lemma zero_pad_length_below (w : nat) (bound : nat) :
  forallb (fun n => Nat.eqb (String.length (zero_pad w (N.of_nat n))) w) (seq 0 bound) = true ->
  forall n, (n < N.of_nat bound)%N -> String.length (zero_pad w n) = w.
Proof.
  intros H n Hn. rewrite forallb_forall in H.
  specialize (H (N.to_nat n)). rewrite N2Nat.id in H.
  apply Nat.eqb_eq, H, in_seq. lia.
Qed.

Lemma zero_pad_4_length (n : N) : (n < 10000)%N -> String.length (zero_pad 4 n) = 4%nat.
Proof. apply (zero_pad_length_below 4 (N.to_nat 10000)). vm_compute. reflexivity. Qed.

Lemma zero_pad_2_length (n : N) : (n < 100)%N -> String.length (zero_pad 2 n) = 2%nat.
Proof. apply (zero_pad_length_below 2 (N.to_nat 100)). vm_compute. reflexivity. Qed.

Lemma string_length_app (a b : string) :
  String.length (a ++ b) = (String.length a + String.length b)%nat.
Proof. induction a as [|c a IH]; simpl; congruence. Qed.

(** A date of four, two and two digits is ten characters long. *)
Lemma strftime_Ymd_length (t : Timestamp) :
  (year t < 10000)%N -> (month t < 100)%N -> (day t < 100)%N ->
  String.length (strftime_Ymd t) = 10%nat.
Proof.
  intros Hy Hm Hd. unfold strftime_Ymd.
  rewrite !string_length_app, zero_pad_4_length, !zero_pad_2_length by assumption.
  reflexivity.
Qed.

(** C9: every row of the returned frame comes from a row read whose firm
    text, upper-cased, is its [firm] and whose timestamp, printed as year,
    month and day with zeros on the left, is its [event_date] (ten
    characters for a four-digit year).  [Morgan Stanley] gives
    [MORGAN STANLEY] and 2020-03-15 09:30 gives [2020-03-15]. *)
Theorem firm_and_date_normalised (df : list recommendation) (out : list event) :
  mk_event_df df = Ok out ->
  (forall e, In e out ->
     exists r, In r df /\
       e_firm e = upper (Firm r) /\
       e_event_date e = strftime_Ymd (Date r) /\
       _mk_et (Action r) = Ok (event_type e) /\
       ((year (Date r) < 10000)%N -> (month (Date r) < 100)%N -> (day (Date r) < 100)%N ->
        String.length (e_event_date e) = 10%nat)) /\
  upper "Morgan Stanley" = "MORGAN STANLEY" /\
  strftime_Ymd (ts 2020 3 15 9 30 0) = "2020-03-15".
Proof.
  intros H. split; [|split; reflexivity].
  intros e He. apply mk_event_df_ok, step4_2_rows in H.
  destruct (Forall2_In_r _ _ _ _ H He) as [g [Hg [Hk Ht]]].
  apply relevant_In in Hg. destruct Hg as [Hg _].
  apply deduplicated_origin in Hg. destruct Hg as [r [Hr [Hf [Hd Ha]]]].
  unfold grouped_key, ev_key in Hk. injection Hk as Hk1 Hk2.
  exists r. rewrite <- Hk1, <- Hk2, <- Ha, Hd. repeat split; auto.
  intros Hy Hm Hdd. apply strftime_Ymd_length; assumption.
Qed.

Lemma firm_and_date_normalised_witness :
  mk_event_df [mkRec (ts 2020 3 15 9 30 0) "Morgan Stanley" "up"] =
    Ok [mkEvent 1 "MORGAN STANLEY" "2020-03-15" "upgrade"] /\
  exists r, In r [mkRec (ts 2020 3 15 9 30 0) "Morgan Stanley" "up"] /\
    "MORGAN STANLEY" = upper (Firm r) /\ "2020-03-15" = strftime_Ymd (Date r).
Proof.
  assert (Hok : mk_event_df [mkRec (ts 2020 3 15 9 30 0) "Morgan Stanley" "up"] =
    Ok [mkEvent 1 "MORGAN STANLEY" "2020-03-15" "upgrade"])
    by (vm_compute; reflexivity).
  split; [exact Hok|].
  destruct (firm_and_date_normalised _ _ Hok) as [Hrows _].
  destruct (Hrows (mkEvent 1 "MORGAN STANLEY" "2020-03-15" "upgrade"))
    as [r [Hr [Hf [Hd _]]]]; [simpl; auto|].
  exists r. auto.
Defined.

(** ** The relevance filter and the classifier *)

Lemma filter_all {A : Type} (f : A -> bool) (l : list A) :
  (forall x, In x l -> f x = true) -> filter f l = l.
Proof.
  intros H. apply forallb_filter_id, forallb_forall, H.
Qed.

(** An exception of the whole function is the one [_mk_et] raises on a row
    that passed the filter. *)
Lemma mk_event_df_raise (df : list recommendation) (e : exn) :
  df <> [] ->
  mk_event_df df = Raise e ->
  exists g, In g (relevant df) /\ g_action g <> "up" /\ g_action g <> "down" /\
            e = unknown_value (g_action g).
Proof.
  intros Hne H. rewrite (mk_event_df_nonempty df Hne) in H.
  unfold relevant, deduplicated in H.
  apply step4_2_raise, apply_mk_et_raise in H.
  destruct H as [pre [v [post [Hc [_ Hv]]]]].
  assert (Hin : In v (map g_action (relevant df))).
  { unfold relevant, deduplicated. rewrite Hc. apply in_or_app. right. left. reflexivity. }
  apply in_map_iff in Hin. destruct Hin as [g [<- Hg]].
  exists g. split; [exact Hg|].
  destruct (_mk_et_cases (g_action g)) as [[_ E]|[[_ E]|[Hd [Hu E]]]];
    rewrite E in Hv; try discriminate.
  inversion Hv. auto.
Qed.

(** C4: the rows kept by step 4.1 are exactly the deduplicated rows whose
    action text contains [up] or contains [down], in the case the text has
    ([UP] and [Down] do not count).  A row that contains neither is never
    the cause of an exception: on a frame with rows, an exception of
    [mk_event_df] names an action that contains one of them, and a frame
    with rows in which no deduplicated action contains one gives the empty
    frame. *)
Theorem relevance_filter (df : list recommendation) :
  (forall g, In g (relevant df) <->
     In g (deduplicated df) /\
     (has_substring "up" (g_action g) \/ has_substring "down" (g_action g))) /\
  (df <> [] -> forall e, mk_event_df df = Raise e ->
     exists g, In g (deduplicated df) /\ e = unknown_value (g_action g) /\
       (has_substring "up" (g_action g) \/ has_substring "down" (g_action g))) /\
  (df <> [] ->
   (forall g, In g (deduplicated df) ->
      ~ has_substring "up" (g_action g) /\ ~ has_substring "down" (g_action g)) ->
   mk_event_df df = Ok []) /\
  str_contains_up_down "UPGRADE" = false /\
  str_contains_up_down "Downgrade" = false /\
  str_contains_up_down "initiated at hold" = false.
Proof.
  split; [|split; [|split; [|repeat split; reflexivity]]].
  - intros g. rewrite relevant_In, str_contains_spec. reflexivity.
  - intros Hne e H. apply (mk_event_df_raise df e Hne) in H.
    destruct H as [g [Hg [_ [_ He]]]]. apply relevant_In in Hg.
    destruct Hg as [Hg Hc]. apply str_contains_spec in Hc. eauto.
  - intros Hne H. rewrite (mk_event_df_nonempty df Hne). unfold relevant.
    assert (E : step4_1 (deduplicated df) = []).
    { unfold step4_1. destruct (filter _ _) as [|g l] eqn:Ef; [reflexivity|].
      assert (Hg : In g (filter (fun g => str_contains_up_down (g_action g)) (deduplicated df)))
        by (rewrite Ef; left; reflexivity).
      apply filter_In in Hg. destruct Hg as [Hg Hc].
      apply str_contains_spec in Hc. specialize (H g Hg). tauto. }
    rewrite E. reflexivity.
Qed.

Lemma relevance_filter_witness :
  mk_event_df [mkRec (ts 2020 1 1 9 0 0) "ABC" "initiated at hold"] = Ok [].
Proof.
  destruct (relevance_filter [mkRec (ts 2020 1 1 9 0 0) "ABC" "initiated at hold"])
    as [_ [_ [H _]]].
  apply H; [discriminate|]. intros g Hg. apply str_contains_false.
  vm_compute in Hg. destruct Hg as [<-|[]]. vm_compute. reflexivity.
Defined.

(** C7: a row that reaches step 4.2 with an action text containing neither
    [up] nor [down] makes the step raise: no frame is returned, the
    exception names an action of the frame that is neither of the two
    texts, and it names this row's action when the rows before it are
    classified. *)
Theorem unknown_action_raises (df : list grouped) (g : grouped) :
  In g df ->
  ~ has_substring "up" (g_action g) ->
  ~ has_substring "down" (g_action g) ->
  (forall out, step4_2 df <> Ok out) /\
  (exists v, In v (map g_action df) /\ v <> "up" /\ v <> "down" /\
     step4_2 df = Raise (Exception ("Unknown value for column `action`: " ++ v))) /\
  (forall pre post, df = (pre ++ g :: post)%list ->
     Forall (fun x => g_action x = "up" \/ g_action x = "down") pre ->
     step4_2 df =
       Raise (Exception ("Unknown value for column `action`: " ++ g_action g))).
Proof.
  intros Hin Hu Hd.
  assert (Hg : _mk_et (g_action g) = Raise (unknown_value (g_action g))).
  { apply _mk_et_other; intros E; [apply Hd | apply Hu]; rewrite E;
      exists "", ""; reflexivity. }
  assert (Hno : forall out, step4_2 df <> Ok out).
  { intros out H. assert (Hs : exists o, step4_2 df = Ok o) by eauto.
    apply step4_2_succeeds in Hs. rewrite Forall_forall in Hs.
    destruct (Hs g Hin) as [E|E]; rewrite E in Hg; discriminate. }
  split; [exact Hno|]. split.
  - destruct (step4_2 df) as [out|e] eqn:E; [exfalso; exact (Hno out eq_refl)|].
    apply step4_2_raise, apply_mk_et_raise in E.
    destruct E as [pre [v [post [Hc [_ Hv]]]]].
    exists v. split; [rewrite Hc; apply in_or_app; right; left; reflexivity|].
    destruct (_mk_et_cases v) as [[_ E]|[[_ E]|[Hvd [Hvu E]]]];
      rewrite E in Hv; try discriminate.
    inversion Hv. repeat split; assumption || reflexivity.
  - intros pre post -> Hpre. apply step4_2_raise.
    rewrite map_app. simpl. apply apply_mk_et_first; [|exact Hg].
    rewrite Forall_map. eapply Forall_impl; [|exact Hpre].
    intros x [E|E]; rewrite E; [exists "upgrade" | exists "downgrade"]; reflexivity.
Qed.

Lemma unknown_action_raises_witness :
  step4_2 [ mkGrouped "2020-01-01" "ABC" "up";
            mkGrouped "2020-01-02" "ABC" "coverage resumed" ] =
    Raise (Exception "Unknown value for column `action`: coverage resumed").
Proof.
  assert (Hneither : str_contains_up_down "coverage resumed" = false)
    by (vm_compute; reflexivity).
  apply str_contains_false in Hneither. destruct Hneither as [Hu Hd].
  destruct (unknown_action_raises
    [ mkGrouped "2020-01-01" "ABC" "up";
      mkGrouped "2020-01-02" "ABC" "coverage resumed" ]
    (mkGrouped "2020-01-02" "ABC" "coverage resumed")) as [_ [_ H]].
  - simpl. auto.
  - exact Hu.
  - exact Hd.
  - apply (H [mkGrouped "2020-01-01" "ABC" "up"] []); [reflexivity|].
    constructor; [left; reflexivity | constructor].
Defined.




(** C1, as the code has it: a row that passed the filter contains [down]
    or [up]; [_mk_et] gives [downgrade] exactly for the text [down] and
    [upgrade] exactly for the text [up], and raises on any other text that
    passed.  On a frame with rows the function returns a frame exactly when
    every action that passed the filter is one of the two texts. *)
Theorem classification_is_exact (df : list recommendation) :
  (forall g, In g (relevant df) ->
     (has_substring "down" (g_action g) \/ has_substring "up" (g_action g)) /\
     (_mk_et (g_action g) = Ok "downgrade" <-> g_action g = "down") /\
     (_mk_et (g_action g) = Ok "upgrade" <-> g_action g = "up") /\
     (g_action g <> "down" -> g_action g <> "up" ->
      _mk_et (g_action g) =
        Raise (Exception ("Unknown value for column `action`: " ++ g_action g)))) /\
  (df <> [] ->
   ((exists out, mk_event_df df = Ok out) <->
    Forall (fun g => g_action g = "up" \/ g_action g = "down") (relevant df))).
Proof.
  split.
  2:{ intros Hne. rewrite (mk_event_df_nonempty df Hne). apply step4_2_succeeds. }
  intros g Hg. apply relevant_In in Hg. destruct Hg as [_ Hc].
  apply str_contains_spec in Hc. split; [tauto|].
  destruct (_mk_et_cases (g_action g)) as [[E H]|[[E H]|[Hd [Hu H]]]].
  - rewrite E. repeat split; try reflexivity; try discriminate; congruence.
  - rewrite E. repeat split; try reflexivity; try discriminate; congruence.
  - rewrite H. repeat split; try discriminate; try congruence; reflexivity.
Qed.

Lemma classification_is_exact_witness :
  exists out, mk_event_df ex_tokens = Ok out.
Proof.
  apply (proj2 (classification_is_exact ex_tokens)); [discriminate|].
  vm_compute. constructor; [right; reflexivity | constructor].
Defined.

(** C1, as the specification has it, fails: [downgraded to sell] contains
    [down] and passes the filter, and [_mk_et] raises on it. *)
Lemma sentence_passes_filter_and_raises :
  str_contains_up_down "downgraded to sell" = true /\
  has_substring "down" "downgraded to sell" /\
  _mk_et "downgraded to sell" =
    Raise (Exception "Unknown value for column `action`: downgraded to sell") /\
  _mk_et "downgraded to sell" <> Ok "downgrade" /\
  mk_event_df [mkRec (ts 2020 1 1 9 0 0) "ABC" "downgraded to sell"] =
    Raise (Exception "Unknown value for column `action`: downgraded to sell").
Proof.
  split; [reflexivity|]. split; [exists "", "graded to sell"; reflexivity|].
  split; [reflexivity|]. split; [discriminate | reflexivity].
Qed.

(** C2, as the code has it: on the two rows of the example the function
    raises, naming the later action; on the same two rows with the action
    texts [up] and [down] it returns the one row of the example. *)
Theorem example_two_rows :
  mk_event_df ex_sentences =
    Raise (Exception "Unknown value for column `action`: downgrade to sell") /\
  mk_event_df ex_tokens = Ok [mkEvent 1 "ABC" "2020-01-01" "downgrade"].
Proof. split; vm_compute; reflexivity. Qed.

(** C2, as the specification has it, fails: no frame is returned. *)
Lemma example_two_sentences_raises :
  ts_compare (ts 2020 1 1 9 0 0) (ts 2020 1 1 15 0 0) = Lt /\
  mk_event_df ex_sentences <> Ok [mkEvent 1 "ABC" "2020-01-01" "downgrade"] /\
  forall out, mk_event_df ex_sentences <> Ok out.
Proof.
  split; [reflexivity|].
  assert (H : mk_event_df ex_sentences =
    Raise (Exception "Unknown value for column `action`: downgrade to sell"))
    by (vm_compute; reflexivity).
  rewrite H. split; [|intros out]; discriminate.
Qed.

(** ** Deduplication *)

Lemma step3_one (a : row) :
  step3 [a] = [mkGrouped (event_date a) (firm a) (action a)].
Proof.
  unfold step3, groupby, group_keys.
  cbn [sort_index insert_row map fold_right insert_key filter].
  rewrite key_eqb_refl. reflexivity.
Qed.

Lemma groups_of_two (a b : row) :
  row_key a = row_key b ->
  groups_last (groupby [a; b]) = [mkGrouped (event_date b) (firm b) (action b)].
Proof.
  intros Hk. unfold groupby, group_keys.
  cbn [map fold_right insert_key]. rewrite Hk, (cmp_refl key_compare).
  cbn [map filter]. rewrite Hk, key_eqb_refl. reflexivity.
Qed.

(** Of two rows of one group, the later one stands, in either order. *)
Lemma step3_two (a b : row) :
  row_key a = row_key b ->
  ts_compare (index a) (index b) = Lt ->
  step3 [a; b] = step3 [b] /\ step3 [b; a] = step3 [b].
Proof.
  intros Hk Hlt. destruct (sort_index_two a b Hlt) as [E1 E2].
  unfold step3 at 1 3. rewrite E1, E2, step3_one, (groups_of_two a b Hk). auto.
Qed.

(** C3, as the code has it: for two rows read with the same upper-cased
    firm and the same date and different timestamps, the result is, in
    either order, the result on the later row alone, so the earlier one is
    discarded; when the later action is exactly [up] or [down], the result
    is the single row of its type, with [event_id] 1. *)
Theorem later_record_stands (r1 r2 : recommendation) :
  upper (Firm r1) = upper (Firm r2) ->
  strftime_Ymd (Date r1) = strftime_Ymd (Date r2) ->
  ts_compare (Date r1) (Date r2) = Lt ->
  mk_event_df [r1; r2] = mk_event_df [r2] /\
  mk_event_df [r2; r1] = mk_event_df [r2] /\
  (forall et, _mk_et (Action r2) = Ok et ->
     mk_event_df [r1; r2] =
       Ok [mkEvent 1 (upper (Firm r2)) (strftime_Ymd (Date r2)) et]).
Proof.
  intros Hf Hd Hlt.
  destruct (step3_two
    (mkRow (Date r1) (upper (Firm r1)) (Action r1) (strftime_Ymd (Date r1)))
    (mkRow (Date r2) (upper (Firm r2)) (Action r2) (strftime_Ymd (Date r2))))
    as [E1 E2].
  { unfold row_key. simpl. congruence. }
  { exact Hlt. }
  assert (H12 : mk_event_df [r1; r2] = mk_event_df [r2]).
  { unfold mk_event_df. simpl. rewrite E1. reflexivity. }
  assert (H21 : mk_event_df [r2; r1] = mk_event_df [r2]).
  { unfold mk_event_df. simpl. rewrite E2. reflexivity. }
  repeat split; [exact H12 | exact H21 |].
  intros et Het. rewrite H12. unfold mk_event_df. simpl. rewrite step3_one.
  unfold step4_1. simpl.
  assert (Hc : str_contains_up_down (Action r2) = true).
  { apply exact_contains. apply _mk_et_ok in Het. tauto. }
  rewrite Hc. unfold step4_2. simpl. rewrite Het. reflexivity.
Qed.

Lemma later_record_stands_witness :
  mk_event_df [ mkRec (ts 2020 1 1 15 0 0) "abc" "down";
                mkRec (ts 2020 1 1 9 0 0) "ABC" "up" ] =
    mk_event_df [ mkRec (ts 2020 1 1 15 0 0) "abc" "down" ] /\
  mk_event_df [ mkRec (ts 2020 1 1 9 0 0) "ABC" "up";
                mkRec (ts 2020 1 1 15 0 0) "abc" "down" ] =
    Ok [mkEvent 1 "ABC" "2020-01-01" "downgrade"].
Proof.
  destruct (later_record_stands
    (mkRec (ts 2020 1 1 9 0 0) "ABC" "up")
    (mkRec (ts 2020 1 1 15 0 0) "abc" "down")) as [_ [H21 Hrow]].
  - reflexivity.
  - reflexivity.
  - reflexivity.
  - split; [exact H21|]. apply (Hrow "downgrade"). reflexivity.
Defined.

(** C3, as the specification has it, fails: the two rows are of one firm
    and one day, the later one reads [upgraded to buy], and no frame is
    returned, so its classification does not appear. *)
Lemma later_sentence_raises :
  upper "Acme Corp" = upper "ACME corp" /\
  strftime_Ymd (ts 2021 5 3 8 0 0) = strftime_Ymd (ts 2021 5 3 16 30 0) /\
  ts_compare (ts 2021 5 3 8 0 0) (ts 2021 5 3 16 30 0) = Lt /\
  "reiterated" <> "upgraded to buy" /\
  has_substring "up" "upgraded to buy" /\
  mk_event_df [ mkRec (ts 2021 5 3 8 0 0) "Acme Corp" "reiterated";
                mkRec (ts 2021 5 3 16 30 0) "ACME corp" "upgraded to buy" ] =
    Raise (Exception "Unknown value for column `action`: upgraded to buy") /\
  forall out,
    mk_event_df [ mkRec (ts 2021 5 3 8 0 0) "Acme Corp" "reiterated";
                  mkRec (ts 2021 5 3 16 30 0) "ACME corp" "upgraded to buy" ] <> Ok out.
Proof.
  assert (H : mk_event_df [ mkRec (ts 2021 5 3 8 0 0) "Acme Corp" "reiterated";
                mkRec (ts 2021 5 3 16 30 0) "ACME corp" "upgraded to buy" ] =
    Raise (Exception "Unknown value for column `action`: upgraded to buy"))
    by (vm_compute; reflexivity).
  split; [reflexivity|]. split; [reflexivity|]. split; [reflexivity|].
  split; [discriminate|]. split; [exists "", "graded to buy"; reflexivity|].
  split; [exact H|]. intros out. rewrite H. discriminate.
Qed.

(** ** Further properties of [mk_event_df] *)

Lemma StronglySorted_key_NoDup (ks : list key) : StronglySorted key_lt ks -> NoDup ks.
Proof.
  induction 1 as [|k ks Hs IH Hk]; constructor; [|exact IH].
  intros Hin. rewrite Forall_forall in Hk.
  exact (cmp_lt_irrefl key_compare k (Hk k Hin)).
Qed.

(** The returned rows: ascending keys and ascending ids, together. *)
Lemma events_sorted (df : list recommendation) (out : list event) :
  mk_event_df df = Ok out ->
  StronglySorted
    (fun a b => key_lt (ev_key a) (ev_key b) /\ (event_id a < event_id b)%Z) out.
Proof.
  intros H. apply mk_event_df_ok, step4_2_ok in H. destruct H as [Hi [Hk _]].
  apply StronglySorted_conj.
  - apply (StronglySorted_map ev_key key_lt). rewrite Hk. apply relevant_sorted.
  - apply (StronglySorted_map event_id Z.lt). rewrite Hi. apply event_ids_sorted.
Qed.

Lemma events_keys (df : list recommendation) (out : list event) :
  mk_event_df df = Ok out -> map ev_key out = map grouped_key (relevant df).
Proof. intros H. apply mk_event_df_ok, step4_2_ok in H. apply H. Qed.

(** X1: the returned frame has at most one row for a firm and a day: two
    rows with the same [firm] and the same [event_date] are the same row. *)
Theorem one_event_per_firm_and_day (df : list recommendation) (out : list event) :
  mk_event_df df = Ok out ->
  NoDup (map ev_key out) /\
  (forall e1 e2, In e1 out -> In e2 out ->
     e_firm e1 = e_firm e2 -> e_event_date e1 = e_event_date e2 -> e1 = e2).
Proof.
  intros H. split.
  - rewrite (events_keys df out H). apply StronglySorted_key_NoDup, relevant_sorted.
  - intros e1 e2 H1 H2 Hf Hd.
    assert (Hk : ev_key e1 = ev_key e2) by (unfold ev_key; congruence).
    destruct (StronglySorted_In _ _ _ _ (events_sorted df out H) H1 H2)
      as [E|[[Hlt _]|[Hlt _]]]; [exact E| |]; exfalso;
      unfold key_lt in Hlt; rewrite Hk in Hlt;
      exact (cmp_lt_irrefl key_compare _ Hlt).
Qed.

Lemma one_event_per_firm_and_day_witness :
  NoDup [ ("2020-01-01", "ABC"); ("2020-03-15", "MORGAN STANLEY") ].
Proof.
  apply (one_event_per_firm_and_day ex_sample
    [ mkEvent 1 "ABC" "2020-01-01" "downgrade";
      mkEvent 2 "MORGAN STANLEY" "2020-03-15" "upgrade" ]).
  vm_compute. reflexivity.
Defined.

Lemma filter_length_bound {A : Type} (f : A -> bool) (l : list A) :
  (List.length (filter f l) <= List.length l)%nat.
Proof.
  induction l as [|x l IH]; simpl; [lia|]. destruct (f x); simpl; lia.
Qed.

(** The keys of the deduplicated frame are the keys of the rows read. *)
Lemma deduplicated_keys (df : list recommendation) (k : key) :
  In k (map grouped_key (deduplicated df)) <-> In k (map rec_key df).
Proof.
  unfold deduplicated. rewrite step3_keys, group_keys_In.
  assert (E : map row_key (step2 df) = map rec_key df).
  { unfold step2. rewrite map_map. reflexivity. }
  rewrite <- E. split; intros H; rewrite in_map_iff in *;
    destruct H as [x [Hx Hin]]; exists x; split; auto;
    eapply Permutation_in; try exact Hin;
    [apply sort_index_perm | apply Permutation_sym, sort_index_perm].
Qed.

(** X2: deduplication leaves exactly one row for each pair of date and
    upper-cased firm that occurs among the rows read, and the returned
    frame has one row for each of them that passes the filter: it is never
    longer than the deduplicated frame, which is never longer than the
    input. *)
Theorem one_group_per_key (df : list recommendation) :
  (forall k, In k (map grouped_key (deduplicated df)) <->
     exists r, In r df /\ k = (strftime_Ymd (Date r), upper (Firm r))) /\
  NoDup (map grouped_key (deduplicated df)) /\
  (List.length (deduplicated df) <= List.length df)%nat /\
  (forall out, mk_event_df df = Ok out ->
     List.length out = List.length (relevant df) /\
     (List.length out <= List.length (deduplicated df))%nat).
Proof.
  assert (Hn : NoDup (map grouped_key (deduplicated df)))
    by apply StronglySorted_key_NoDup, deduplicated_sorted.
  split; [|split; [exact Hn|split]].
  - intros k. rewrite deduplicated_keys, in_map_iff. unfold rec_key.
    split; intros [r [H1 H2]]; exists r; auto.
  - rewrite <- (length_map grouped_key), <- (length_map rec_key df).
    apply NoDup_incl_length; [exact Hn|].
    intros k Hk. apply deduplicated_keys. exact Hk.
  - intros out H. apply mk_event_df_ok in H.
    rewrite (step4_2_length _ _ H). fold (deduplicated df).
    split; [reflexivity|]. unfold step4_1. apply filter_length_bound.
Qed.

Lemma one_group_per_key_witness :
  mk_event_df ex_sample =
    Ok [ mkEvent 1 "ABC" "2020-01-01" "downgrade";
         mkEvent 2 "MORGAN STANLEY" "2020-03-15" "upgrade" ] /\
  (2 <= List.length (deduplicated ex_sample))%nat.
Proof.
  assert (Hok : mk_event_df ex_sample =
    Ok [ mkEvent 1 "ABC" "2020-01-01" "downgrade";
         mkEvent 2 "MORGAN STANLEY" "2020-03-15" "upgrade" ])
    by (vm_compute; reflexivity).
  split; [exact Hok|].
  destruct (one_group_per_key ex_sample) as [_ [_ [_ H]]].
  destruct (H _ Hok) as [_ Hle]. exact Hle.
Defined.

(** The last row of an ascending frame is above every row of the frame. *)
Lemma last_row_dominates (R : row -> row -> Prop) (g : list row) (y : row) :
  StronglySorted R g -> last_row g = Some y ->
  forall z, In z g -> z = y \/ R z y.
Proof.
  induction 1 as [|x g Hs IH Hx]; [discriminate|].
  intros Hl z Hz. destruct g as [|x' g'].
  - simpl in Hl. inversion Hl; subst. destruct Hz as [<-|[]]. left. reflexivity.
  - change (last_row (x' :: g') = Some y) in Hl.
    destruct Hz as [<-|Hz]; [|apply IH; assumption].
    right. rewrite Forall_forall in Hx. apply Hx, last_row_In, Hl.
Qed.

Lemma group_sorted (df : list row) (k : key) :
  StronglySorted ts_le_rows (filter (fun x => key_eqb (row_key x) k) (sort_index df)).
Proof. apply StronglySorted_filter, sort_index_sorted. Qed.

(** The row that stands for a group, traced back to the rows read. *)
Lemma deduplicated_last (df : list recommendation) (g : grouped) :
  In g (deduplicated df) ->
  exists r, In r df /\ rec_key r = grouped_key g /\ g_action g = Action r /\
    forall r', In r' df -> rec_key r' = rec_key r ->
      ts_compare (Date r') (Date r) <> Gt.
Proof.
  intros H. unfold deduplicated in H. apply step3_In in H.
  destruct H as [y [Hy [Ha _]]].
  pose proof (last_row_dominates _ _ _ (group_sorted (step2 df) (grouped_key g)) Hy) as Hdom.
  apply last_row_In, filter_In in Hy. destruct Hy as [Hy Hk].
  apply key_eqb_eq in Hk.
  eapply Permutation_in in Hy; [|apply sort_index_perm].
  unfold step2 in Hy. apply in_map_iff in Hy. destruct Hy as [r [Er Hr]].
  subst y. unfold row_key in Hk. simpl in Hk, Ha, Hdom.
  exists r. split; [exact Hr|]. split; [exact Hk|]. split; [exact Ha|].
  intros r' Hr' Hk'.
  destruct (Hdom (mkRow (Date r') (upper (Firm r')) (Action r') (strftime_Ymd (Date r'))))
    as [E|Hle].
  - apply filter_In. split.
    + eapply Permutation_in; [apply Permutation_sym, sort_index_perm|].
      unfold step2. apply in_map_iff. exists r'. auto.
    + apply key_eqb_eq. unfold row_key. simpl. unfold rec_key in Hk, Hk'. congruence.
  - inversion E. rewrite (cmp_refl ts_compare). discriminate.
  - exact Hle.
Qed.

(** X3: the row that deduplication keeps for a date and a firm carries the
    action of a row read that is chronologically last in its group: no row
    read with the same date and the same upper-cased firm has a later
    timestamp. *)
Theorem kept_record_is_latest (df : list recommendation) (g : grouped) :
  In g (deduplicated df) ->
  exists r, In r df /\
    g_event_date g = strftime_Ymd (Date r) /\
    g_firm g = upper (Firm r) /\
    g_action g = Action r /\
    forall r', In r' df ->
      strftime_Ymd (Date r') = strftime_Ymd (Date r) ->
      upper (Firm r') = upper (Firm r) ->
      ts_compare (Date r') (Date r) <> Gt.
Proof.
  intros H. destruct (deduplicated_last df g H) as [r [Hr [Hk [Ha Hmax]]]].
  unfold rec_key, grouped_key in Hk. injection Hk as Hd Hf.
  exists r. repeat split; auto.
  intros r' Hr' Hd' Hf'. apply Hmax; [exact Hr'|].
  unfold rec_key. congruence.
Qed.

Lemma kept_record_is_latest_witness :
  exists r, In r ex_tokens /\ "down" = Action r /\
    forall r', In r' ex_tokens ->
      strftime_Ymd (Date r') = strftime_Ymd (Date r) ->
      upper (Firm r') = upper (Firm r) ->
      ts_compare (Date r') (Date r) <> Gt.
Proof.
  destruct (kept_record_is_latest ex_tokens (mkGrouped "2020-01-01" "ABC" "down"))
    as [r [Hr [_ [_ [Ha Hmax]]]]].
  - vm_compute. left. reflexivity.
  - exists r. auto.
Defined.

(** A group has one row in the deduplicated frame. *)
Lemma deduplicated_key_inj (df : list recommendation) (g1 g2 : grouped) :
  In g1 (deduplicated df) -> In g2 (deduplicated df) ->
  grouped_key g1 = grouped_key g2 -> g1 = g2.
Proof.
  intros H1 H2 Hk.
  pose proof (proj1 (StronglySorted_map grouped_key key_lt _) (deduplicated_sorted df)) as Hs.
  destruct (StronglySorted_In _ _ _ _ Hs H1 H2) as [E|[Hlt|Hlt]]; [exact E| |];
    exfalso; unfold key_lt in Hlt; rewrite Hk in Hlt;
    exact (cmp_lt_irrefl key_compare _ Hlt).
Qed.

(** The row of a group whose latest row read is [r]. *)
Lemma deduplicated_of_latest (df : list recommendation) (r : recommendation) :
  In r df ->
  (forall r', In r' df -> rec_key r' = rec_key r ->
     r' = r \/ ts_compare (Date r') (Date r) = Lt) ->
  In (mkGrouped (strftime_Ymd (Date r)) (upper (Firm r)) (Action r)) (deduplicated df).
Proof.
  intros Hr Hlatest.
  assert (Hk : In (rec_key r) (map grouped_key (deduplicated df))).
  { apply deduplicated_keys, in_map, Hr. }
  apply in_map_iff in Hk. destruct Hk as [g [Hk Hg]].
  destruct (deduplicated_last df g Hg) as [r0 [Hr0 [Hk0 [Ha0 Hmax]]]].
  assert (E : r0 = r).
  { destruct (Hlatest r0 Hr0) as [E|Hlt]; [congruence | exact E |].
    exfalso. apply (Hmax r Hr); [congruence|].
    apply (cmp_gt_lt ts_compare). exact Hlt. }
  subst r0. destruct g as [d f a]. unfold grouped_key, rec_key in Hk. simpl in *.
  injection Hk as -> ->. rewrite <- Ha0. exact Hg.
Qed.

(** X4: a row read that is strictly later than every other row read of
    its date and upper-cased firm decides the event of that date and firm.
    When the function returns: if its action contains [up] or [down], the
    returned frame has a row with its date, its upper-cased firm and the
    type of its action; if not, the returned frame has no row for that date
    and firm. *)
Theorem latest_record_decides (df : list recommendation) (out : list event)
    (r : recommendation) :
  mk_event_df df = Ok out ->
  In r df ->
  (forall r', In r' df ->
     strftime_Ymd (Date r') = strftime_Ymd (Date r) ->
     upper (Firm r') = upper (Firm r) ->
     r' = r \/ ts_compare (Date r') (Date r) = Lt) ->
  (str_contains_up_down (Action r) = true ->
   exists e, In e out /\
     e_event_date e = strftime_Ymd (Date r) /\
     e_firm e = upper (Firm r) /\
     _mk_et (Action r) = Ok (event_type e)) /\
  (str_contains_up_down (Action r) = false ->
   forall e, In e out ->
     ~ (e_event_date e = strftime_Ymd (Date r) /\ e_firm e = upper (Firm r))).
Proof.
  intros Hout Hr Hlatest.
  assert (Hg : In (mkGrouped (strftime_Ymd (Date r)) (upper (Firm r)) (Action r))
                  (deduplicated df)).
  { apply deduplicated_of_latest; [exact Hr|].
    intros r' Hr' Hk. unfold rec_key in Hk. injection Hk as Hd Hf. auto. }
  pose proof (step4_2_rows _ _ (mk_event_df_ok _ _ Hout)) as Hrows.
  fold (deduplicated df) in Hrows.
  fold (relevant df) in Hrows. split.
  - intros Hc.
    assert (Hrel : In (mkGrouped (strftime_Ymd (Date r)) (upper (Firm r)) (Action r))
                      (relevant df)).
    { apply relevant_In. split; [exact Hg | exact Hc]. }
    destruct (Forall2_In_l _ _ _ _ Hrows Hrel) as [e [He [Hk Ht]]].
    unfold grouped_key, ev_key in Hk. simpl in Hk, Ht. injection Hk as Hd Hf.
    exists e. auto.
  - intros Hc e He [Hd Hf].
    destruct (Forall2_In_r _ _ _ _ Hrows He) as [g' [Hg' [Hk _]]].
    apply relevant_In in Hg'. destruct Hg' as [Hg' Hc'].
    assert (E : g' = mkGrouped (strftime_Ymd (Date r)) (upper (Firm r)) (Action r)).
    { apply (deduplicated_key_inj df); [exact Hg' | exact Hg |].
      rewrite Hk. unfold ev_key, grouped_key. simpl. congruence. }
    subst g'. simpl in Hc'. congruence.
Qed.

Lemma latest_record_decides_witness :
  exists e, In e [ mkEvent 1 "ABC" "2020-01-01" "downgrade";
                   mkEvent 2 "MORGAN STANLEY" "2020-03-15" "upgrade" ] /\
    e_event_date e = "2020-01-01" /\ e_firm e = "ABC" /\
    _mk_et "down" = Ok (event_type e).
Proof.
  destruct (latest_record_decides ex_sample
    [ mkEvent 1 "ABC" "2020-01-01" "downgrade";
      mkEvent 2 "MORGAN STANLEY" "2020-03-15" "upgrade" ]
    (mkRec (ts 2020 1 1 15 0 0) "abc" "down")) as [H _].
  - vm_compute. reflexivity.
  - simpl. auto.
  - intros r' Hr' Hd Hf. simpl in Hr'.
    destruct Hr' as [<-|[<-|[<-|[<-|[]]]]];
      try (left; reflexivity); try (right; reflexivity);
      vm_compute in Hd; discriminate.
  - apply H. reflexivity.
Defined.

Lemma StronglySorted_app_mid {A : Type} (R : A -> A -> Prop) (pre post : list A) (x : A) :
  StronglySorted R (pre ++ x :: post)%list ->
  Forall (fun y => R y x) pre /\ Forall (fun y => R x y) post.
Proof.
  induction pre as [|p pre IH]; simpl; intros H; inversion H; subst.
  - split; [constructor | assumption].
  - destruct (IH H2) as [H1 H4]. split; [|exact H4].
    constructor; [|exact H1].
    rewrite Forall_forall in H3. apply H3, in_or_app. right. left. reflexivity.
Qed.

Lemma map_eq_app_cons {A B : Type} (f : A -> B) (l : list A) (pre post : list B) (v : B) :
  map f l = (pre ++ v :: post)%list ->
  exists lpre x lpost, l = (lpre ++ x :: lpost)%list /\
    map f lpre = pre /\ f x = v /\ map f lpost = post.
Proof.
  revert l. induction pre as [|p pre IH]; intros [|a l]; simpl; try discriminate.
  - intros H. injection H as H1 H2. exists [], a, l. auto.
  - intros H. injection H as H1 H2.
    destruct (IH l H2) as [lpre [x [lpost [-> [E1 [E2 E3]]]]]].
    exists (a :: lpre), x, lpost. simpl. repeat split; congruence.
Qed.

(** X5: the function raises in exactly two cases.  On the frame without
    rows it raises [AttributeError].  On a frame with rows it raises when
    some action that passed the filter is neither the text [up] nor the
    text [down], and the exception names the first such action in the
    order of the frame, that is the one with the smallest pair of date and
    firm; the rows before it are classified and have smaller pairs. *)
Theorem exception_names_first_unknown (df : list recommendation) (e : exn) :
  mk_event_df df = Raise e <->
  (df = [] /\ e = AttributeError) \/
  (df <> [] /\
   exists pre g post,
     relevant df = (pre ++ g :: post)%list /\
     Forall (fun x => exact_action (g_action x) /\
                      key_lt (grouped_key x) (grouped_key g)) pre /\
     ~ exact_action (g_action g) /\
     e = Exception ("Unknown value for column `action`: " ++ g_action g)).
Proof.
  unfold exact_action. split.
  - intros H. destruct df as [|r0 df0] eqn:Edf.
    { left. split; [reflexivity|]. simpl in H. congruence. }
    right. split; [discriminate|]. rewrite <- Edf in *.
    assert (Hne : df <> []) by (rewrite Edf; discriminate).
    rewrite (mk_event_df_nonempty df Hne) in H.
    apply step4_2_raise, apply_mk_et_raise in H.
    destruct H as [pre [v [post [Hc [Hpre Hv]]]]].
    apply map_eq_app_cons in Hc.
    destruct Hc as [lpre [g [lpost [Hrel [E1 [E2 E3]]]]]]. subst pre v post.
    exists lpre, g, lpost. split; [exact Hrel|].
    pose proof (proj1 (StronglySorted_map grouped_key key_lt _) (relevant_sorted df)) as Hs.
    rewrite Hrel in Hs. apply StronglySorted_app_mid in Hs. destruct Hs as [Hlt _].
    split; [|split].
    + rewrite Forall_map in Hpre. rewrite Forall_forall in *.
      intros x Hx. split; [|apply Hlt, Hx].
      destruct (Hpre x Hx) as [t Ht]. apply _mk_et_ok in Ht. tauto.
    + intros [E|E]; rewrite E in Hv; discriminate.
    + destruct (_mk_et_cases (g_action g)) as [[_ E]|[[_ E]|[_ [_ E]]]];
        rewrite E in Hv; try discriminate.
      inversion Hv. reflexivity.
  - intros [[-> ->]|[Hne [pre [g [post [Hrel [Hpre [Hg He]]]]]]]]; [reflexivity|].
    subst e. rewrite (mk_event_df_nonempty df Hne).
    apply step4_2_raise. rewrite Hrel, map_app. simpl. apply apply_mk_et_first.
    + rewrite Forall_map. eapply Forall_impl; [|exact Hpre].
      intros x [[E|E] _]; rewrite E;
        [exists "upgrade" | exists "downgrade"]; reflexivity.
    + apply _mk_et_other; intros E; apply Hg; auto.
Qed.

Lemma exception_names_first_unknown_witness :
  mk_event_df
    [ mkRec (ts 2020 2 1 9 0 0) "Zed" "upgraded";
      mkRec (ts 2020 1 5 9 0 0) "Abc" "up";
      mkRec (ts 2020 1 7 9 0 0) "Mid" "downgraded" ] =
  Raise (Exception "Unknown value for column `action`: downgraded").
Proof.
  apply (proj2 (exception_names_first_unknown _ _)).
  right. split; [discriminate|].
  exists [mkGrouped "2020-01-05" "ABC" "up"],
         (mkGrouped "2020-01-07" "MID" "downgraded"),
         [mkGrouped "2020-02-01" "ZED" "upgraded"].
  split; [vm_compute; reflexivity|]. split; [|split].
  - constructor; [|constructor]. split; [left; reflexivity | reflexivity].
  - intros [E|E]; discriminate.
  - reflexivity.
Defined.

(** ** Dates as text *)

Lemma string_compare_app (a b x y : string) :
  String.length a = String.length b ->
  String.compare (a ++ x) (b ++ y) =
    match String.compare a b with
    | Eq => String.compare x y
    | c => c
    end.
Proof.
  revert b. induction a as [|c a IH]; intros [|d b]; simpl; try discriminate.
  - reflexivity.
  - intros H. destruct (Ascii.compare c d); try reflexivity.
    apply IH. congruence.
Qed.

Lemma zero_pad_step_lt (w : nat) (bound : nat) :
  forallb (fun n => match String.compare (zero_pad w (N.of_nat n))
                                         (zero_pad w (N.of_nat (S n))) with
                    | Lt => true | _ => false end) (seq 0 bound) = true ->
  forall n m : nat, (n < m)%nat -> (m <= bound)%nat ->
    String.compare (zero_pad w (N.of_nat n)) (zero_pad w (N.of_nat m)) = Lt.
Proof.
  intros H n m Hnm. rewrite forallb_forall in H.
  assert (Hstep : forall k, (k < bound)%nat ->
    String.compare (zero_pad w (N.of_nat k)) (zero_pad w (N.of_nat (S k))) = Lt).
  { intros k Hk. specialize (H k). rewrite in_seq in H.
    destruct (String.compare _ _); try reflexivity;
      (assert (false = true) by (apply H; lia)); discriminate. }
  induction Hnm as [|m Hnm IH]; intros Hb.
  - apply Hstep. lia.
  - eapply (cmp_trans (cmp := String.compare)); [apply IH; lia | apply Hstep; lia].
Qed.

Lemma zero_pad_compare (w : nat) (bound : nat) :
  forallb (fun n => match String.compare (zero_pad w (N.of_nat n))
                                         (zero_pad w (N.of_nat (S n))) with
                    | Lt => true | _ => false end) (seq 0 bound) = true ->
  forall a b : N, (a <= N.of_nat bound)%N -> (b <= N.of_nat bound)%N ->
    String.compare (zero_pad w a) (zero_pad w b) = N.compare a b.
Proof.
  intros H a b Ha Hb.
  rewrite <- (N2Nat.id a), <- (N2Nat.id b).
  destruct (N.compare_spec (N.of_nat (N.to_nat a)) (N.of_nat (N.to_nat b))) as [E|E|E].
  - rewrite E. apply (cmp_refl String.compare).
  - apply (zero_pad_step_lt w bound H); lia.
  - apply (cmp_gt_lt String.compare). apply (zero_pad_step_lt w bound H); lia.
Qed.

Lemma zero_pad_4_compare (a b : N) :
  (a < 10000)%N -> (b < 10000)%N ->
  String.compare (zero_pad 4 a) (zero_pad 4 b) = N.compare a b.
Proof.
  intros Ha Hb. apply (zero_pad_compare 4 (N.to_nat 9999)).
  - vm_compute. reflexivity.
  - rewrite N2Nat.id. lia.
  - rewrite N2Nat.id. lia.
Qed.

Lemma zero_pad_2_compare (a b : N) :
  (a < 100)%N -> (b < 100)%N ->
  String.compare (zero_pad 2 a) (zero_pad 2 b) = N.compare a b.
Proof.
  intros Ha Hb. apply (zero_pad_compare 2 (N.to_nat 99)).
  - vm_compute. reflexivity.
  - rewrite N2Nat.id. lia.
  - rewrite N2Nat.id. lia.
Qed.

(** The text order of printed dates is the order of the dates. *)
Lemma strftime_Ymd_compare (a b : Timestamp) :
  date_in_range a -> date_in_range b ->
  String.compare (strftime_Ymd a) (strftime_Ymd b) = date_compare a b.
Proof.
  intros [Hya [Hma Hda]] [Hyb [Hmb Hdb]].
  unfold strftime_Ymd, date_compare, date_fields, pair_compare. simpl fst. simpl snd.
  rewrite string_compare_app
    by (rewrite !zero_pad_4_length by assumption; reflexivity).
  rewrite zero_pad_4_compare by assumption.
  destruct (year a ?= year b)%N; try reflexivity.
  change ("-" ++ zero_pad 2 (month a) ++ "-" ++ zero_pad 2 (day a))
    with (String "-" (zero_pad 2 (month a) ++ String "-" (zero_pad 2 (day a)))).
  change ("-" ++ zero_pad 2 (month b) ++ "-" ++ zero_pad 2 (day b))
    with (String "-" (zero_pad 2 (month b) ++ String "-" (zero_pad 2 (day b)))).
  cbn [String.compare]. change (Ascii.compare "-" "-") with Eq. cbv iota.
  rewrite string_compare_app
    by (rewrite !zero_pad_2_length by assumption; reflexivity).
  rewrite zero_pad_2_compare by assumption.
  destruct (month a ?= month b)%N; try reflexivity.
  cbn [String.compare]. change (Ascii.compare "-" "-") with Eq. cbv iota.
  apply zero_pad_2_compare; assumption.
Qed.

(** X6: the text order of two [event_date] strings is the order of the
    calendar dates they print; in particular two timestamps have the same
    [event_date] exactly when they have the same year, month and day. *)
Theorem event_date_order (a b : Timestamp) :
  date_in_range a -> date_in_range b ->
  String.compare (strftime_Ymd a) (strftime_Ymd b) = date_compare a b /\
  (strftime_Ymd a = strftime_Ymd b <->
   year a = year b /\ month a = month b /\ day a = day b).
Proof.
  intros Ha Hb. pose proof (strftime_Ymd_compare a b Ha Hb) as Hc.
  split; [exact Hc|].
  rewrite <- (cmp_eq (cmp := String.compare)), Hc. unfold date_compare.
  rewrite (cmp_eq (cmp := pair_compare N.compare (pair_compare N.compare N.compare))).
  unfold date_fields. split.
  - intros E. injection E as E1 E2 E3. auto.
  - intros [E1 [E2 E3]]. congruence.
Qed.

Lemma event_date_order_witness :
  String.compare "2019-12-31" "2020-01-02" = Lt.
Proof.
  apply (proj1 (event_date_order (ts 2019 12 31 23 59 59) (ts 2020 1 2 0 0 0)
    ltac:(unfold date_in_range; simpl; lia) ltac:(unfold date_in_range; simpl; lia))).
Defined.

(** X7: the returned frame is in chronological order of the dates: when
    a row has a smaller [event_id] than another, the day it was read from
    is not after the day of the other, and on the same day its firm comes
    first in text order. *)
Theorem events_chronological (df : list recommendation) (out : list event)
    (e1 e2 : event) (r1 r2 : recommendation) :
  mk_event_df df = Ok out ->
  date_in_range (Date r1) -> date_in_range (Date r2) ->
  In e1 out -> In e2 out ->
  e_event_date e1 = strftime_Ymd (Date r1) ->
  e_event_date e2 = strftime_Ymd (Date r2) ->
  (event_id e1 < event_id e2)%Z ->
  date_compare (Date r1) (Date r2) = Lt \/
  (date_compare (Date r1) (Date r2) = Eq /\
   String.compare (e_firm e1) (e_firm e2) = Lt).
Proof.
  intros H Hv1 Hv2 H1 H2 Hd1 Hd2 Hid.
  assert (Hk : key_lt (ev_key e1) (ev_key e2)).
  { destruct (StronglySorted_In _ _ _ _ (events_sorted df out H) H1 H2)
      as [E|[[Hlt _]|[_ Hgt]]]; [subst; lia | exact Hlt | lia]. }
  unfold key_lt, key_compare, pair_compare, ev_key in Hk. simpl in Hk.
  rewrite Hd1, Hd2, (strftime_Ymd_compare _ _ Hv1 Hv2) in Hk.
  destruct (date_compare (Date r1) (Date r2)); [right; auto | left; auto | discriminate].
Qed.

Lemma events_chronological_witness :
  date_compare (ts 2020 1 1 15 0 0) (ts 2020 3 15 9 30 0) = Lt \/
  (date_compare (ts 2020 1 1 15 0 0) (ts 2020 3 15 9 30 0) = Eq /\
   String.compare "ABC" "MORGAN STANLEY" = Lt).
Proof.
  apply (events_chronological ex_sample
    [ mkEvent 1 "ABC" "2020-01-01" "downgrade";
      mkEvent 2 "MORGAN STANLEY" "2020-03-15" "upgrade" ]
    (mkEvent 1 "ABC" "2020-01-01" "downgrade")
    (mkEvent 2 "MORGAN STANLEY" "2020-03-15" "upgrade")
    (mkRec (ts 2020 1 1 15 0 0) "abc" "down")
    (mkRec (ts 2020 3 15 9 30 0) "Morgan Stanley" "up")).
  - vm_compute. reflexivity.
  - unfold date_in_range. simpl. lia.
  - unfold date_in_range. simpl. lia.
  - simpl. auto.
  - simpl. auto.
  - reflexivity.
  - reflexivity.
  - simpl. lia.
Defined.

(** ** Upper case *)

Lemma upper_char_not_lower (c : ascii) : is_lower (upper_char c) = false.
Proof.
  destruct c as [[] [] [] [] [] [] [] []]; reflexivity.
Qed.

Lemma upper_char_fixed (c : ascii) : is_lower c = false -> upper_char c = c.
Proof. intros H. unfold upper_char. rewrite H. reflexivity. Qed.

Lemma upper_idempotent (s : string) : upper (upper s) = upper s.
Proof.
  induction s as [|c s IH]; simpl; [reflexivity|].
  rewrite IH, (upper_char_fixed _ (upper_char_not_lower c)). reflexivity.
Qed.

Lemma upper_length (s : string) : String.length (upper s) = String.length s.
Proof. induction s as [|c s IH]; simpl; congruence. Qed.

Lemma upper_no_lower (s : string) (c : ascii) :
  In c (list_ascii_of_string (upper s)) -> is_lower c = false.
Proof.
  induction s as [|d s IH]; simpl; [tauto|].
  intros [<-|H]; [apply upper_char_not_lower | apply IH, H].
Qed.

(** X8: when the firm texts read are ASCII text, every [firm] of the
    returned frame is in upper case: it has no letter from [a] to [z],
    upper-casing it again changes nothing, and it is as long as the firm
    text it was read from. *)
Theorem firm_is_upper_case (df : list recommendation) (out : list event) (e : event) :
  (forall r, In r df -> ascii_text (Firm r)) ->
  mk_event_df df = Ok out -> In e out ->
  upper (e_firm e) = e_firm e /\
  (forall c, In c (list_ascii_of_string (e_firm e)) -> is_lower c = false) /\
  exists r, In r df /\ ascii_text (Firm r) /\ e_firm e = upper (Firm r) /\
    String.length (e_firm e) = String.length (Firm r).
Proof.
  intros Hascii H He. apply mk_event_df_ok, step4_2_rows in H.
  destruct (Forall2_In_r _ _ _ _ H He) as [g [Hg [Hk _]]].
  apply relevant_In in Hg. destruct Hg as [Hg _].
  apply deduplicated_origin in Hg. destruct Hg as [r [Hr [Hf _]]].
  unfold grouped_key, ev_key in Hk. injection Hk as _ Hk2.
  rewrite <- Hk2, Hf. split; [apply upper_idempotent|]. split.
  - intros c. apply upper_no_lower.
  - exists r. split; [exact Hr|]. split; [apply Hascii, Hr|].
    split; [reflexivity | apply upper_length].
Qed.

Lemma firm_is_upper_case_witness :
  upper "MORGAN STANLEY" = "MORGAN STANLEY".
Proof.
  apply (firm_is_upper_case ex_sample
    [ mkEvent 1 "ABC" "2020-01-01" "downgrade";
      mkEvent 2 "MORGAN STANLEY" "2020-03-15" "upgrade" ]
    (mkEvent 2 "MORGAN STANLEY" "2020-03-15" "upgrade")).
  - intros r Hr c Hc. simpl in Hr.
    destruct Hr as [<-|[<-|[<-|[<-|[]]]]]; simpl in Hc;
      repeat (destruct Hc as [<-|Hc]; [vm_compute; reflexivity|]); destruct Hc.
  - vm_compute. reflexivity.
  - simpl. auto.
Defined.

(** ** Rows that do not change the result *)

Lemma sorted_keys_unique (l1 l2 : list key) :
  StronglySorted key_lt l1 -> StronglySorted key_lt l2 ->
  (forall k, In k l1 <-> In k l2) -> l1 = l2.
Proof.
  intros H1. revert l2. induction H1 as [|x l1 Hs1 IH Hx]; intros l2 H2 Hm.
  - destruct l2 as [|y l2]; [reflexivity|].
    exfalso. apply (proj2 (Hm y)). left. reflexivity.
  - destruct l2 as [|y l2].
    + exfalso. apply (proj1 (Hm x)). left. reflexivity.
    + inversion H2 as [|? ? Hs2 Hy]; subst.
      rewrite Forall_forall in Hx, Hy.
      assert (E : x = y).
      { destruct (proj1 (Hm x) (or_introl eq_refl)) as [E|Hin]; [congruence|].
        destruct (proj2 (Hm y) (or_introl eq_refl)) as [E|Hin']; [exact E|].
        exfalso. exact (cmp_lt_asym key_compare _ _ (Hx y Hin') (Hy x Hin)). }
      subst y. f_equal. apply IH; [exact Hs2|].
      intros k. split; intros Hk.
      * destruct (proj1 (Hm k) (or_intror Hk)) as [E|Hin]; [|exact Hin].
        subst k. exfalso. exact (cmp_lt_irrefl key_compare _ (Hx x Hk)).
      * destruct (proj2 (Hm k) (or_intror Hk)) as [E|Hin]; [|exact Hin].
        subst k. exfalso. exact (cmp_lt_irrefl key_compare _ (Hy x Hk)).
Qed.

Lemma insert_row_head (a : row) (l : list row) :
  Forall (ts_le_rows a) l -> insert_row a l = a :: l.
Proof.
  intros H. destruct l as [|y l]; [reflexivity|]. simpl.
  inversion H; subst.
  assert (E : ts_leb (index a) (index y) = true) by (apply ts_leb_true; assumption).
  rewrite E. reflexivity.
Qed.

Lemma insert_row_split (x : row) (l : list row) :
  exists A B, l = (A ++ B)%list /\ insert_row x l = (A ++ x :: B)%list.
Proof.
  induction l as [|y l IH]; simpl.
  - exists [], []. auto.
  - destruct (ts_leb (index x) (index y)).
    + exists [], (y :: l). auto.
    + destruct IH as [A [B [E1 E2]]]. exists (y :: A), B.
      simpl. rewrite E2, <- E1. auto.
Qed.

(** Sorting in one more row does not move a row that is there. *)
Lemma insert_row_around (a x : row) (A B : list row) :
  StronglySorted ts_le_rows (A ++ x :: B)%list ->
  exists A' B', insert_row a (A ++ x :: B)%list = (A' ++ x :: B')%list /\
                insert_row a (A ++ B)%list = (A' ++ B')%list.
Proof.
  induction A as [|y A IH]; simpl; intros Hs.
  - destruct (ts_leb (index a) (index x)) eqn:E.
    + exists [a], B. split; [reflexivity|]. simpl. apply insert_row_head.
      inversion Hs as [|? ? _ HB]; subst. apply ts_leb_true in E.
      rewrite Forall_forall in *. intros z Hz. unfold ts_le_rows.
      eapply (cmp_le_trans ts_compare); [exact E | apply HB, Hz].
    + exists [], (insert_row a B). auto.
  - inversion Hs as [|? ? Hs' _]; subst.
    destruct (ts_leb (index a) (index y)).
    + exists (a :: y :: A), B. auto.
    + destruct (IH Hs') as [A' [B' [E1 E2]]]. exists (y :: A'), B'.
      simpl. rewrite E1, E2. auto.
Qed.

(** The sorted frame with one row of the input left out. *)
Lemma sort_index_without (df1 df2 : list row) (x : row) :
  exists A B, sort_index (df1 ++ x :: df2)%list = (A ++ x :: B)%list /\
              sort_index (df1 ++ df2)%list = (A ++ B)%list.
Proof.
  induction df1 as [|a df1 IH]; simpl.
  - destruct (insert_row_split x (sort_index df2)) as [A [B [E1 E2]]].
    exists A, B. auto.
  - destruct IH as [A [B [E1 E2]]]. rewrite E1, E2.
    apply insert_row_around. rewrite <- E1. apply sort_index_sorted.
Qed.

Lemma last_row_none (g : list row) : last_row g = None -> g = [].
Proof.
  destruct g as [|x g]; [reflexivity|]. intros H.
  destruct (last_row_some (x :: g)) as [y Hy]; [discriminate | congruence].
Qed.

Lemma last_row_app_some (l1 l2 : list row) (y : row) :
  last_row l2 = Some y -> last_row (l1 ++ l2)%list = Some y.
Proof.
  intros H. induction l1 as [|x l1 IH]; [exact H|].
  simpl. rewrite IH. destruct (l1 ++ l2)%list eqn:E; [|reflexivity].
  apply app_eq_nil in E. destruct E as [_ E]. subst l2. discriminate.
Qed.

Lemma groups_last_ext (G1 G2 : key -> list row) (ks : list key) :
  (forall k, In k ks -> last_row (G1 k) = last_row (G2 k)) ->
  groups_last (map (fun k => (k, G1 k)) ks) = groups_last (map (fun k => (k, G2 k)) ks).
Proof.
  induction ks as [|k ks IH]; intros H; [reflexivity|].
  unfold groups_last in *. simpl. rewrite (H k (or_introl eq_refl)).
  f_equal. apply IH. intros k' Hk'. apply H. right. exact Hk'.
Qed.

Lemma group_keys_same (df1 df2 : list row) :
  (forall k, In k (map row_key df1) <-> In k (map row_key df2)) ->
  group_keys df1 = group_keys df2.
Proof.
  intros H. apply sorted_keys_unique; try apply group_keys_sorted.
  intros k. rewrite !group_keys_In. apply H.
Qed.

Lemma perm_keys (df1 df2 : list row) (k : key) :
  Permutation df1 df2 -> In k (map row_key df1) -> In k (map row_key df2).
Proof.
  intros Hp. apply Permutation_in, Permutation_map, Hp.
Qed.

(** The frame of step 3 when one row is left out that has a strictly later
    row of its own group. *)
Lemma step3_without_earlier (df1 df2 : list row) (x0 x1 : row) :
  In x1 (df1 ++ df2)%list ->
  row_key x1 = row_key x0 ->
  ts_compare (index x0) (index x1) = Lt ->
  step3 (df1 ++ x0 :: df2)%list = step3 (df1 ++ df2)%list.
Proof.
  intros Hx1 Hk Hlt.
  destruct (sort_index_without df1 df2 x0) as [A [B [E1 E2]]].
  pose proof (sort_index_sorted (df1 ++ x0 :: df2)%list) as Hs. rewrite E1 in Hs.
  assert (HAB : In x1 (A ++ B)%list).
  { rewrite <- E2. eapply Permutation_in; [apply Permutation_sym, sort_index_perm | exact Hx1]. }
  unfold step3, groupby.
  assert (Hkeys : group_keys (sort_index (df1 ++ x0 :: df2)%list) =
                  group_keys (sort_index (df1 ++ df2)%list)).
  { apply group_keys_same. intros k.
    assert (Hwith : In k (map row_key (df1 ++ x0 :: df2)%list) <->
                    In k (map row_key (df1 ++ df2)%list)).
    { rewrite !map_app. simpl. rewrite !in_app_iff. simpl. split; [|tauto].
      intros [H|[H|H]]; auto.
      rewrite <- in_app_iff, <- map_app, <- H, <- Hk. apply in_map, Hx1. }
    split; intros H.
    - apply (perm_keys _ _ k (Permutation_sym (sort_index_perm _))).
      apply Hwith. apply (perm_keys _ _ k (sort_index_perm _)). exact H.
    - apply (perm_keys _ _ k (Permutation_sym (sort_index_perm _))).
      apply Hwith. apply (perm_keys _ _ k (sort_index_perm _)). exact H. }
  rewrite Hkeys, E1, E2. apply groups_last_ext. intros k _.
  rewrite !filter_app. simpl.
  destruct (key_eqb (row_key x0) k) eqn:Ek; [|reflexivity].
  apply key_eqb_eq in Ek.
  destruct (last_row (filter (fun r => key_eqb (row_key r) k) B)) as [y|] eqn:El.
  - rewrite (last_row_app_some _ (x0 :: _) y).
    + symmetry. apply last_row_app_some. exact El.
    + change (last_row ([x0] ++ filter (fun r => key_eqb (row_key r) k) B)%list = Some y).
      apply last_row_app_some. exact El.
  - exfalso. apply last_row_none in El.
    assert (HxB : ~ In x1 B).
    { intros Hin. assert (Hf : In x1 (filter (fun r => key_eqb (row_key r) k) B)).
      { apply filter_In. split; [exact Hin|]. apply key_eqb_eq. congruence. }
      rewrite El in Hf. exact Hf. }
    apply in_app_or in HAB. destruct HAB as [HA|HB]; [|exact (HxB HB)].
    apply StronglySorted_app_mid in Hs. destruct Hs as [Hpre _].
    rewrite Forall_forall in Hpre. specialize (Hpre x1 HA). unfold ts_le_rows in Hpre.
    apply Hpre. apply (cmp_gt_lt ts_compare). exact Hlt.
Qed.

Lemma sort_index_is_sort : is_sort sort_index.
Proof.
  intros df. split; [apply sort_index_perm | apply sort_index_sorted].
Qed.

(** On rows read with pairwise distinct timestamps the result is the same
    whatever sort is used. *)
Lemma mk_event_df_any_sort (sort : list row -> list row) (df : list recommendation) :
  is_sort sort -> NoDup (map Date df) ->
  mk_event_df_with sort df = mk_event_df df.
Proof.
  intros Hsort Hn. destruct df as [|r df]; [reflexivity|].
  unfold mk_event_df_with, mk_event_df, step3.
  destruct (Hsort (step2 (r :: df))) as [Hp Hs].
  rewrite (sort_index_is_the_sort (step2 (r :: df)) (sort (step2 (r :: df)))); auto.
  unfold step2. rewrite map_map. exact Hn.
Qed.

Lemma NoDup_map_without {A B : Type} (f : A -> B) (l1 l2 : list A) (x : A) :
  NoDup (map f (l1 ++ x :: l2)%list) -> NoDup (map f (l1 ++ l2)%list).
Proof.
  rewrite !map_app. simpl. apply NoDup_remove_1.
Qed.

Lemma app_cons_nonempty {A : Type} (l1 l2 : list A) (x : A) :
  (l1 ++ x :: l2)%list <> [].
Proof. destruct l1; discriminate. Qed.

(** X9: among rows read with pairwise distinct timestamps, a row that has
    a later row of the same date and the same upper-cased firm plays no
    part: with it or without it, wherever it stands among the rows read,
    the function gives the same result, whatever sort line 57 uses. *)
Theorem earlier_record_is_discarded (sort : list row -> list row)
    (df1 df2 : list recommendation) (r0 r1 : recommendation) :
  is_sort sort ->
  NoDup (map Date (df1 ++ r0 :: df2)%list) ->
  In r1 (df1 ++ df2)%list ->
  strftime_Ymd (Date r1) = strftime_Ymd (Date r0) ->
  upper (Firm r1) = upper (Firm r0) ->
  ts_compare (Date r0) (Date r1) = Lt ->
  mk_event_df_with sort (df1 ++ r0 :: df2)%list =
  mk_event_df_with sort (df1 ++ df2)%list.
Proof.
  intros Hsort Hn Hr1 Hd Hf Hlt.
  rewrite (mk_event_df_any_sort sort _ Hsort Hn),
          (mk_event_df_any_sort sort _ Hsort (NoDup_map_without _ _ _ _ Hn)).
  assert (Hne : (df1 ++ df2)%list <> []).
  { intros E. rewrite E in Hr1. exact Hr1. }
  rewrite (mk_event_df_nonempty _ Hne),
          (mk_event_df_nonempty _ (app_cons_nonempty df1 df2 r0)).
  unfold relevant, deduplicated, step2. rewrite !map_app. simpl.
  rewrite (step3_without_earlier _ _ _
    (mkRow (Date r1) (upper (Firm r1)) (Action r1) (strftime_Ymd (Date r1)))).
  - reflexivity.
  - rewrite <- map_app.
    apply (in_map (fun r => mkRow (Date r) (upper (Firm r)) (Action r) (strftime_Ymd (Date r)))).
    exact Hr1.
  - unfold row_key. simpl. congruence.
  - exact Hlt.
Qed.

Lemma earlier_record_is_discarded_witness :
  mk_event_df_with sort_index ex_sample =
  mk_event_df_with sort_index
    [ mkRec (ts 2020 3 15 9 30 0) "Morgan Stanley" "up";
      mkRec (ts 2020 1 1 15 0 0) "abc" "down";
      mkRec (ts 2020 1 1 10 0 0) "Barclays" "init" ].
Proof.
  apply (earlier_record_is_discarded sort_index
    [ mkRec (ts 2020 3 15 9 30 0) "Morgan Stanley" "up";
      mkRec (ts 2020 1 1 15 0 0) "abc" "down" ]
    [ mkRec (ts 2020 1 1 10 0 0) "Barclays" "init" ]
    (mkRec (ts 2020 1 1 9 0 0) "abc" "up")
    (mkRec (ts 2020 1 1 15 0 0) "abc" "down")).
  - exact sort_index_is_sort.
  - simpl. repeat constructor; simpl; intuition discriminate.
  - simpl. auto.
  - reflexivity.
  - reflexivity.
  - reflexivity.
Defined.

Lemma strictly_sorted_unique {A : Type} (R : A -> A -> Prop) (l1 l2 : list A) :
  (forall a b, R a b -> R b a -> False) ->
  StronglySorted R l1 -> StronglySorted R l2 ->
  (forall a, In a l1 <-> In a l2) -> l1 = l2.
Proof.
  intros Hasym H1. revert l2. induction H1 as [|x l1 Hs1 IH Hx]; intros l2 H2 Hm.
  - destruct l2 as [|y l2]; [reflexivity|].
    exfalso. apply (proj2 (Hm y)). left. reflexivity.
  - destruct l2 as [|y l2].
    + exfalso. apply (proj1 (Hm x)). left. reflexivity.
    + inversion H2 as [|? ? Hs2 Hy]; subst.
      rewrite Forall_forall in Hx, Hy.
      assert (E : x = y).
      { destruct (proj1 (Hm x) (or_introl eq_refl)) as [E|Hin]; [congruence|].
        destruct (proj2 (Hm y) (or_introl eq_refl)) as [E|Hin']; [exact E|].
        exfalso. exact (Hasym _ _ (Hx y Hin') (Hy x Hin)). }
      subst y. f_equal. apply IH; [exact Hs2|].
      intros k. split; intros Hk.
      * destruct (proj1 (Hm k) (or_intror Hk)) as [E|Hin]; [|exact Hin].
        subst k. exfalso. exact (Hasym _ _ (Hx x Hk) (Hx x Hk)).
      * destruct (proj2 (Hm k) (or_intror Hk)) as [E|Hin]; [|exact Hin].
        subst k. exfalso. exact (Hasym _ _ (Hy x Hk) (Hy x Hk)).
Qed.

Lemma filter_none {A : Type} (f : A -> bool) (l : list A) :
  (forall x, In x l -> f x = false) -> filter f l = [].
Proof.
  induction l as [|x l IH]; intros H; [reflexivity|].
  simpl. rewrite (H x (or_introl eq_refl)). apply IH.
  intros y Hy. apply H. right. exact Hy.
Qed.

Lemma step3_sorted (df : list row) :
  StronglySorted (fun a b => key_lt (grouped_key a) (grouped_key b)) (step3 df).
Proof.
  apply StronglySorted_map. rewrite step3_keys. apply group_keys_sorted.
Qed.

(** The rows of step 3 that pass the filter when one row is left out whose
    group is its own and whose action does not pass. *)
Lemma relevant_without_alone (df1 df2 : list row) (x0 : row) :
  (forall x, In x (df1 ++ df2)%list -> row_key x <> row_key x0) ->
  str_contains_up_down (action x0) = false ->
  step4_1 (step3 (df1 ++ x0 :: df2)%list) = step4_1 (step3 (df1 ++ df2)%list).
Proof.
  intros Hfresh Hc.
  destruct (sort_index_without df1 df2 x0) as [A [B [E1 E2]]].
  assert (HAB : forall x, In x (A ++ B)%list -> row_key x <> row_key x0).
  { intros x Hx. apply Hfresh. rewrite <- E2 in Hx.
    eapply Permutation_in; [apply sort_index_perm | exact Hx]. }
  apply (strictly_sorted_unique
    (fun a b => key_lt (grouped_key a) (grouped_key b))).
  - intros a b. apply (cmp_lt_asym key_compare).
  - apply StronglySorted_filter, step3_sorted.
  - apply StronglySorted_filter, step3_sorted.
  - intros g. unfold step4_1. rewrite !filter_In, !step3_In, E1, E2.
    rewrite !filter_app. simpl.
    destruct (key_eqb (row_key x0) (grouped_key g)) eqn:Ek.
    + apply key_eqb_eq in Ek. split.
      * intros [[y [Hy [Ha _]]] Hg]. exfalso.
        rewrite (filter_none _ A), (filter_none _ B) in Hy.
        -- simpl in Hy. inversion Hy; subst y. congruence.
        -- intros x Hx. apply not_true_iff_false. intros E. apply key_eqb_eq in E.
           apply (HAB x); [apply in_or_app; right; exact Hx | congruence].
        -- intros x Hx. apply not_true_iff_false. intros E. apply key_eqb_eq in E.
           apply (HAB x); [apply in_or_app; left; exact Hx | congruence].
      * intros [[y [_ [_ Hin]]] _]. exfalso.
        apply in_map_iff in Hin. destruct Hin as [x [Hx1 Hx2]].
        apply (Hfresh x Hx2). congruence.
    + assert (Hne : row_key x0 <> grouped_key g).
      { intros E. apply key_eqb_eq in E. congruence. }
      assert (Hkeys : In (grouped_key g) (map row_key (df1 ++ x0 :: df2)%list) <->
                      In (grouped_key g) (map row_key (df1 ++ df2)%list)).
      { rewrite !map_app. simpl. rewrite !in_app_iff. simpl. tauto. }
      split; intros [[y [Hy [Ha Hin]]] Hg]; (split; [|exact Hg]);
        exists y; (split; [exact Hy|]); (split; [exact Ha|]); apply Hkeys; exact Hin.
Qed.

(** X10: among rows read with pairwise distinct timestamps, a row whose
    date and upper-cased firm no other row shares, and whose action
    contains neither [up] nor [down], plays no part when other rows are
    read: with it or without it, wherever it stands among the rows read,
    the function gives the same result, with the same [event_id]s,
    whatever sort line 57 uses. *)
Theorem lone_irrelevant_record_is_invisible (sort : list row -> list row)
    (df1 df2 : list recommendation) (r0 : recommendation) :
  is_sort sort ->
  NoDup (map Date (df1 ++ r0 :: df2)%list) ->
  (df1 ++ df2)%list <> [] ->
  (forall r, In r (df1 ++ df2)%list ->
     ~ (strftime_Ymd (Date r) = strftime_Ymd (Date r0) /\
        upper (Firm r) = upper (Firm r0))) ->
  ~ has_substring "up" (Action r0) ->
  ~ has_substring "down" (Action r0) ->
  mk_event_df_with sort (df1 ++ r0 :: df2)%list =
  mk_event_df_with sort (df1 ++ df2)%list.
Proof.
  intros Hsort Hn Hne Hfresh Hu Hd.
  rewrite (mk_event_df_any_sort sort _ Hsort Hn),
          (mk_event_df_any_sort sort _ Hsort (NoDup_map_without _ _ _ _ Hn)).
  rewrite (mk_event_df_nonempty _ Hne),
          (mk_event_df_nonempty _ (app_cons_nonempty df1 df2 r0)).
  unfold relevant, deduplicated, step2. rewrite !map_app. simpl.
  rewrite (relevant_without_alone _ _
    (mkRow (Date r0) (upper (Firm r0)) (Action r0) (strftime_Ymd (Date r0)))).
  - reflexivity.
  - intros x Hx. rewrite <- map_app in Hx. apply in_map_iff in Hx.
    destruct Hx as [r [<- Hr]]. unfold row_key. simpl.
    intros E. injection E as E1 E2. apply (Hfresh r Hr). auto.
  - apply str_contains_false. simpl. auto.
Qed.

Lemma lone_irrelevant_record_is_invisible_witness :
  mk_event_df_with sort_index ex_sample =
  mk_event_df_with sort_index
    [ mkRec (ts 2020 3 15 9 30 0) "Morgan Stanley" "up";
      mkRec (ts 2020 1 1 15 0 0) "abc" "down";
      mkRec (ts 2020 1 1 9 0 0) "abc" "up" ].
Proof.
  assert (Hneither : str_contains_up_down "init" = false) by (vm_compute; reflexivity).
  apply str_contains_false in Hneither. destruct Hneither as [Hu Hd].
  apply (lone_irrelevant_record_is_invisible sort_index
    [ mkRec (ts 2020 3 15 9 30 0) "Morgan Stanley" "up";
      mkRec (ts 2020 1 1 15 0 0) "abc" "down";
      mkRec (ts 2020 1 1 9 0 0) "abc" "up" ]
    []
    (mkRec (ts 2020 1 1 10 0 0) "Barclays" "init")).
  - exact sort_index_is_sort.
  - simpl. repeat constructor; simpl; intuition discriminate.
  - discriminate.
  - intros r Hr [_ Hf]. simpl in Hr.
    destruct Hr as [<-|[<-|[<-|[]]]]; vm_compute in Hf; discriminate.
  - exact Hu.
  - exact Hd.
Defined.

(** ** The [event_id] as a rank *)

Lemma event_id_at (df : list recommendation) (pre post : list event) (e : event) :
  mk_event_df df = Ok (pre ++ e :: post)%list ->
  event_id e = (Z.of_nat (List.length pre) + 1)%Z.
Proof.
  intros H. apply mk_event_df_ok in H.
  pose proof (step4_2_length _ _ H) as Hlen.
  apply step4_2_ok in H. destruct H as [Hi _].
  rewrite <- Hlen, event_ids_seq in Hi.
  apply (f_equal (fun l => nth (List.length pre) l 0%Z)) in Hi.
  rewrite map_app in Hi. simpl in Hi.
  rewrite app_nth2 in Hi by (rewrite length_map; lia).
  rewrite length_map, Nat.sub_diag in Hi. simpl in Hi.
  rewrite Hi. change 0%Z with (Z.of_nat 0). rewrite map_nth, seq_nth.
  - lia.
  - rewrite length_app. simpl. lia.
Qed.

(** X11: the [event_id] of a returned row is its rank by date and firm:
    one more than the number of returned rows whose pair of [event_date]
    and [firm] is smaller. *)
Theorem event_id_is_rank (df : list recommendation) (out : list event) (e : event) :
  mk_event_df df = Ok out -> In e out ->
  event_id e =
    (1 + Z.of_nat (List.length
           (filter (fun e' => key_ltb (ev_key e') (ev_key e)) out)))%Z.
Proof.
  intros H He. apply in_split in He. destruct He as [pre [post ->]].
  pose proof (events_sorted df _ H) as Hs.
  apply StronglySorted_app_mid in Hs. destruct Hs as [Hpre Hpost].
  rewrite Forall_forall in Hpre, Hpost.
  rewrite (event_id_at df pre post e H), filter_app.
  rewrite (filter_all _ pre), (filter_none _ (e :: post)).
  - rewrite app_nil_r. lia.
  - intros x [<-|Hx]; unfold key_ltb.
    + rewrite (cmp_refl key_compare). reflexivity.
    + destruct (Hpost x Hx) as [Hlt _].
      destruct (key_compare (ev_key x) (ev_key e)) eqn:E; try reflexivity.
      exfalso. exact (cmp_lt_asym key_compare _ _ Hlt E).
  - intros x Hx. destruct (Hpre x Hx) as [Hlt _].
    unfold key_ltb. unfold key_lt in Hlt. rewrite Hlt. reflexivity.
Qed.

Lemma event_id_is_rank_witness :
  event_id (mkEvent 2 "MORGAN STANLEY" "2020-03-15" "upgrade") =
    (1 + Z.of_nat (List.length
           (filter (fun e' => key_ltb (ev_key e')
                      (ev_key (mkEvent 2 "MORGAN STANLEY" "2020-03-15" "upgrade")))
              [ mkEvent 1 "ABC" "2020-01-01" "downgrade";
                mkEvent 2 "MORGAN STANLEY" "2020-03-15" "upgrade" ])))%Z.
Proof.
  apply (event_id_is_rank ex_sample).
  - vm_compute. reflexivity.
  - simpl. auto.
Defined.
